(** * Conway's Game of Life: the simulation engine

    A shallow embedding of [src/types.ts], [src/config.ts], [src/game.ts],
    [src/main.ts] and the command handlers of [src/input.ts], followed by
    the properties of the engine.

    Conventions of the embedding.
    - A JavaScript number that the code uses as an index, a counter or a
      duration is an integer: [Z] where the code can receive a negative
      value, [nat] for lengths and for indices produced by [Array.map].
    - A grid is an array of rows without holes: every index below its
      length holds a value.  At run time a row slot may hold [undefined]
      or [null] in place of an array (the code tests [Array.isArray] and
      reads rows with [?.]); such a slot is [None].  A well-typed [Grid]
      has [Some] in every slot.  A hole of a sparse array, which
      [Array.prototype.map] passes over, is not a value of [Grid]: every
      statement below about a grid of any shape is about an array without
      holes whose slots hold arrays, [undefined] or [null].
    - A thrown [TypeError] is the result [None] of a function that returns
      [option].
    - [console.warn] is modelled by the [console] component of [Logged].
    - Drawing on the canvas and the state of the buttons are not modelled. *)

From stdpp Require Import gmap list strings.
From Stdlib Require Import ZArith Lia.

Local Open Scope Z_scope.
#[local] Set Warnings "-clear-no-such-hyp".

(** ** [src/types.ts] *)

(** [type CellState = 0 | 1] *)
Inductive CellState : Set :=
| Dead   (* 0 *)
| Alive. (* 1 *)

#[global] Instance CellState_eq_dec : EqDecision CellState.
Proof. solve_decision. Defined.

(** [type Grid = CellState[][]], with the row slots as found at run time. *)
Abbreviation Row := (list CellState).
Abbreviation Grid := (list (option (list CellState))).

(** [type SimulationStatus = 'running' | 'paused' | 'stopped'] *)
Inductive SimulationStatus : Set := running | paused | stopped.

#[global] Instance SimulationStatus_eq_dec : EqDecision SimulationStatus.
Proof. solve_decision. Defined.

Record GameState : Type := mkGameState {
  grid : Grid;
  numRows : nat;
  numCols : nat;
  generation : nat;
  status : SimulationStatus;
  simulationInterval : Z;
  timerId : option nat;
  isDrawing : bool;
  drawMode : CellState
}.

Record GameConfig : Type := mkGameConfig {
  canvasWidth : Z;
  canvasHeight : Z;
  cellColorAlive : string;
  cellColorDead : string;
  gridLineColor : string;
  initialGridRows : nat;
  initialGridCols : nat;
  defaultSimulationIntervalMs : Z;
  minSimulationIntervalMs : Z;
  maxSimulationIntervalMs : Z
}.

Record Pattern : Type := mkPattern {
  name : string;
  data : list (Z * Z);
  width : Z;
  height : Z
}.

(** ** [src/config.ts] *)

Definition CONFIG : GameConfig := {|
  canvasWidth := 700;
  canvasHeight := 500;
  cellColorAlive := "#00e676";
  cellColorDead := "#263238";
  gridLineColor := "#37474f";
  initialGridRows := 50;
  initialGridCols := 70;
  defaultSimulationIntervalMs := 200;
  minSimulationIntervalMs := 50;
  maxSimulationIntervalMs := 1000
|}.

(** ** Reading a grid *)

(** [grid[r]?.[c]] for integer [r], [c]: [None] is [undefined]. *)
Definition cellAt (g : Grid) (r c : Z) : option CellState :=
  if (r <? 0) || (c <? 0) then None
  else match g !! Z.to_nat r with
       | Some (Some cells) => cells !! Z.to_nat c
       | _ => None
       end.

(** [grid[0]?.length]: [None] is [undefined]. *)
Definition firstRowLength (g : Grid) : option nat :=
  match g !! 0%nat with
  | Some (Some cells) => Some (length cells)
  | _ => None
  end.

(** Every row slot holds an array of [n] cells. *)
Definition rectangular (n : nat) (g : Grid) : Prop :=
  Forall (fun slot => exists cells : Row, slot = Some cells /\ length cells = n) g.

(** Every row slot holds an array. *)
Definition wellTyped (g : Grid) : Prop :=
  Forall (fun slot : option Row => is_Some slot) g.

(** ** [src/game.ts] *)

Definition createEmptyGrid (numRows numCols : nat) : Grid :=
  replicate numRows (Some (replicate numCols Dead)).

Section Random.

(** The outcome of the [k]-th evaluation of [Math.random() < probability]
    since the page was loaded. *)
Variable below : nat -> bool.

(** [createRandomGrid], started after [drawn] evaluations; the cells are
    drawn row by row. *)
Definition createRandomGrid (drawn numRows numCols : nat) : Grid :=
  imap (fun row _ =>
          Some (imap (fun col _ =>
                        if below (drawn + row * numCols + col)%nat
                        then Alive else Dead)
                     (replicate numCols tt)))
       (replicate numRows tt).

Definition createInitialGameState (drawn : nat) : GameState := {|
  grid := createRandomGrid drawn (initialGridRows CONFIG) (initialGridCols CONFIG);
  numRows := initialGridRows CONFIG;
  numCols := initialGridCols CONFIG;
  generation := 0;
  status := paused;
  simulationInterval := defaultSimulationIntervalMs CONFIG;
  timerId := None;
  isDrawing := false;
  drawMode := Alive
|}.

End Random.

(** *** [calculateNextGeneration] *)

(** The bounds of both [for] loops: [-1], [0], [1]. *)
Definition loopRange : list Z := [-1; 0; 1].

(** The two nested loops over [i] and [j] with the counter
    [liveNeighbors]; [%] is the remainder of JavaScript, [Z.rem]. *)
Definition countLiveNeighbors (currentGrid : Grid) (numRows numCols : nat)
    (row col : nat) : nat :=
  foldl (fun liveNeighbors i =>
    foldl (fun liveNeighbors j =>
      if (i =? 0) && (j =? 0) then liveNeighbors
      else
        let neighborRow := Z.of_nat row + i in
        let neighborCol := Z.of_nat col + j in
        let wrappedRow := Z.rem (neighborRow + Z.of_nat numRows) (Z.of_nat numRows) in
        let wrappedCol := Z.rem (neighborCol + Z.of_nat numCols) (Z.of_nat numCols) in
        if decide (cellAt currentGrid wrappedRow wrappedCol = Some Alive)
        then S liveNeighbors
        else liveNeighbors)
      liveNeighbors loopRange)
    0%nat loopRange.

(** The rules applied to one cell. *)
Definition applyRules (currentCellState : CellState) (liveNeighbors : nat) : CellState :=
  match currentCellState with
  | Alive =>
      if (liveNeighbors <? 2)%nat || (3 <? liveNeighbors)%nat then Dead else Alive
  | Dead =>
      if (liveNeighbors =? 3)%nat then Alive else Dead
  end.

(** [rowArray.map] on a slot that holds no array throws a [TypeError]. *)
Definition calculateNextGeneration (currentGrid : Grid) : option Grid :=
  let numRows := length currentGrid in
  let numCols := default 0%nat (firstRowLength currentGrid) in
  if decide (numRows = 0%nat \/ numCols = 0%nat) then Some []
  else
    mapM id
      (imap (fun row (rowArray : option Row) =>
               match rowArray with
               | Some cells =>
                   Some (Some (imap (fun col currentCellState =>
                                       applyRules currentCellState
                                         (countLiveNeighbors currentGrid numRows numCols row col))
                                    cells))
               | None => None
               end)
            currentGrid).

(** *** Repair of a row, as both [setCellState] and [loadPattern] do it *)

(** [oldContent.forEach((val, i) => sanitizedRow[i] = val)] *)
Definition copyInto (oldContent sanitizedRow : Row) : Row :=
  foldl (fun acc iv => <[iv.1 := iv.2]> acc) sanitizedRow (imap pair oldContent).

Definition sanitizeRow (expectedNumCols : nat) (currentRowArray : option Row) : Row :=
  let sanitizedRow :=
    match currentRowArray with
    | Some cells => cells
    | None => replicate expectedNumCols Dead
    end in
  if (length sanitizedRow <? expectedNumCols)%nat then
    let oldContent := sanitizedRow in
    copyInto oldContent (replicate expectedNumCols Dead)
  else if (expectedNumCols <? length sanitizedRow)%nat then
    take expectedNumCols sanitizedRow
  else sanitizedRow.

(** [grid[0]?.length ?? CONFIG.initialGridCols] *)
Definition expectedNumCols (g : Grid) : nat :=
  default (initialGridCols CONFIG) (firstRowLength g).

(** *** [setCellState] *)

Inductive ConsoleLevel : Set := LevelWarn | LevelError.

Record ConsoleMessage : Type := mkConsoleMessage {
  level : ConsoleLevel;
  about : Z * Z;
  dimensions : nat * nat
}.

Record Logged (A : Type) : Type := mkLogged {
  value : A;
  console : list ConsoleMessage
}.
Arguments mkLogged {A} _ _.
Arguments value {A} _.
Arguments console {A} _.

Definition toggle (cell : CellState) : CellState :=
  if decide (cell = Alive) then Dead else Alive.

Definition setCellState (grid : Grid) (row col : Z) (newState : option CellState)
    : Logged Grid :=
  let numRows := length grid in
  let expectedNumCols := expectedNumCols grid in
  if (row <? 0) || (row >=? Z.of_nat numRows) || (col <? 0)
     || (col >=? Z.of_nat expectedNumCols)
  then
    mkLogged grid [mkConsoleMessage LevelWarn (row, col) (numRows, expectedNumCols)]
  else
    let interimGrid := map (sanitizeRow expectedNumCols) grid in
    mkLogged
      (imap (fun rIndex currentRowArray =>
               if negb (Z.of_nat rIndex =? row) then Some currentRowArray
               else Some (imap (fun cIndex cell =>
                                  if negb (Z.of_nat cIndex =? col) then cell
                                  else match newState with
                                       | Some s => s
                                       | None => toggle cell
                                       end)
                               currentRowArray))
            interimGrid)
      [].

(** *** [loadPattern] *)

(** The set [patternLiveCells].  Its elements are the strings
    [rTarget,cTarget]; two pairs of integers give the same string only when
    they are equal, so the set is kept as a set of pairs. *)
Definition patternLiveCells (numRows expectedNumCols : nat) (pattern : Pattern)
    (startRow startCol : Z) : gset (Z * Z) :=
  foldl (fun (acc : gset (Z * Z)) offset =>
           let rTarget := startRow + offset.1 in
           let cTarget := startCol + offset.2 in
           if (rTarget >=? 0) && (rTarget <? Z.of_nat numRows)
              && (cTarget >=? 0) && (cTarget <? Z.of_nat expectedNumCols)
           then {[ (rTarget, cTarget) ]} ∪ acc
           else acc)
        ∅ (data pattern).

Definition loadPattern (grid : Grid) (pattern : Pattern) (startRow startCol : Z) : Grid :=
  let numRows := length grid in
  let expectedNumCols := expectedNumCols grid in
  let sanitizedBaseGrid := map (sanitizeRow expectedNumCols) grid in
  let live := patternLiveCells numRows expectedNumCols pattern startRow startCol in
  imap (fun rIndex currentRowArray =>
          Some (imap (fun cIndex cellState =>
                        if decide ((Z.of_nat rIndex, Z.of_nat cIndex) ∈ live)
                        then Alive else cellState)
                     currentRowArray))
       sanitizedBaseGrid.

(** ** [src/main.ts]: the session *)

(** What the handlers of the class [GameOfLife] read and write: the game
    state behind [gameStateRef.current], the timers registered with
    [window.setInterval] and not yet cleared (identifier and delay), the
    identifier that the next [setInterval] returns, the number of
    evaluations of [Math.random] so far and the console. *)
Record World : Type := mkWorld {
  gameState : GameState;
  intervals : list (nat * Z);
  nextTimerId : nat;
  randomDrawn : nat;
  consoleLog : list ConsoleMessage
}.

Definition withGameState (w : World) (gs : GameState) : World :=
  {| gameState := gs; intervals := intervals w; nextTimerId := nextTimerId w;
     randomDrawn := randomDrawn w; consoleLog := consoleLog w |}.

Definition setGrid (g : Grid) (gs : GameState) : GameState :=
  {| grid := g; numRows := numRows gs; numCols := numCols gs;
     generation := generation gs; status := status gs;
     simulationInterval := simulationInterval gs; timerId := timerId gs;
     isDrawing := isDrawing gs; drawMode := drawMode gs |}.

Definition setGeneration (n : nat) (gs : GameState) : GameState :=
  {| grid := grid gs; numRows := numRows gs; numCols := numCols gs;
     generation := n; status := status gs;
     simulationInterval := simulationInterval gs; timerId := timerId gs;
     isDrawing := isDrawing gs; drawMode := drawMode gs |}.

Definition setStatus (s : SimulationStatus) (gs : GameState) : GameState :=
  {| grid := grid gs; numRows := numRows gs; numCols := numCols gs;
     generation := generation gs; status := s;
     simulationInterval := simulationInterval gs; timerId := timerId gs;
     isDrawing := isDrawing gs; drawMode := drawMode gs |}.

Definition setSimulationInterval (i : Z) (gs : GameState) : GameState :=
  {| grid := grid gs; numRows := numRows gs; numCols := numCols gs;
     generation := generation gs; status := status gs;
     simulationInterval := i; timerId := timerId gs;
     isDrawing := isDrawing gs; drawMode := drawMode gs |}.

Definition setTimerId (t : option nat) (gs : GameState) : GameState :=
  {| grid := grid gs; numRows := numRows gs; numCols := numCols gs;
     generation := generation gs; status := status gs;
     simulationInterval := simulationInterval gs; timerId := t;
     isDrawing := isDrawing gs; drawMode := drawMode gs |}.

(** [clearInterval(id)] *)
Definition clearInterval (id : nat) (w : World) : World :=
  {| gameState := gameState w;
     intervals := filter (fun t => t.1 <> id) (intervals w);
     nextTimerId := nextTimerId w;
     randomDrawn := randomDrawn w; consoleLog := consoleLog w |}.

(** [window.setInterval(callback, delay)]; the callback of every timer of
    this program is [stepGeneration]. *)
Definition setInterval (delay : Z) (w : World) : nat * World :=
  (nextTimerId w,
   {| gameState := gameState w;
      intervals := intervals w ++ [(nextTimerId w, delay)];
      nextTimerId := S (nextTimerId w);
      randomDrawn := randomDrawn w; consoleLog := consoleLog w |}).

Definition startSimulation (w : World) : World :=
  if decide (status (gameState w) = running) then w
  else
    let w := withGameState w (setStatus running (gameState w)) in
    let w := match timerId (gameState w) with
             | Some id => clearInterval id w
             | None => w
             end in
    let '(id, w) := setInterval (simulationInterval (gameState w)) w in
    withGameState w (setTimerId (Some id) (gameState w)).

Definition stopSimulation (w : World) : World :=
  if decide (status (gameState w) <> running) then w
  else
    let w := withGameState w (setStatus paused (gameState w)) in
    match timerId (gameState w) with
    | Some id =>
        let w := clearInterval id w in
        withGameState w (setTimerId None (gameState w))
    | None => w
    end.

(** [None]: [calculateNextGeneration] threw, before any assignment. *)
Definition stepGeneration (w : World) : option World :=
  g ← calculateNextGeneration (grid (gameState w));
  let w := withGameState w (setGrid g (gameState w)) in
  Some (withGameState w (setGeneration (S (generation (gameState w))) (gameState w))).

Section Session.

Variable below : nat -> bool.

Definition randomizeGrid (w : World) : World :=
  let w := stopSimulation w in
  let gs := gameState w in
  let w :=
    {| gameState := setGrid (createRandomGrid below (randomDrawn w) (numRows gs) (numCols gs)) gs;
       intervals := intervals w; nextTimerId := nextTimerId w;
       randomDrawn := (randomDrawn w + numRows gs * numCols gs)%nat;
       consoleLog := consoleLog w |} in
  let w := withGameState w (setGeneration 0 (gameState w)) in
  withGameState w (setStatus paused (gameState w)).

Definition clearGrid (w : World) : World :=
  let w := stopSimulation w in
  let gs := gameState w in
  let w := withGameState w (setGrid (createEmptyGrid (numRows gs) (numCols gs)) gs) in
  let w := withGameState w (setGeneration 0 (gameState w)) in
  withGameState w (setStatus paused (gameState w)).

Definition handleCellToggle (row col : Z) (explicitState : option CellState)
    (w : World) : World :=
  if decide (status (gameState w) = paused) then
    let r := setCellState (grid (gameState w)) row col explicitState in
    {| gameState := setGrid (value r) (gameState w);
       intervals := intervals w; nextTimerId := nextTimerId w;
       randomDrawn := randomDrawn w;
       consoleLog := consoleLog w ++ console r |}
  else w.

Definition handleSpeedChange (interval : Z) (w : World) : World :=
  let w := withGameState w (setSimulationInterval interval (gameState w)) in
  if decide (status (gameState w) = running) then
    let w := stopSimulation w in
    startSimulation w
  else w.

(** [Math.floor((numRows - pattern.height) / 2)] and the same for the
    columns: [Z.div] rounds down. *)
Definition centredStart (size : nat) (extent : Z) : Z :=
  (Z.of_nat size - extent) / 2.

Definition handleLoadPattern (pattern : Pattern) (w : World) : World :=
  let w := stopSimulation w in
  let gs := gameState w in
  let w := withGameState w (setGrid (createEmptyGrid (numRows gs) (numCols gs)) gs) in
  let startRow := centredStart (numRows (gameState w)) (height pattern) in
  let startCol := centredStart (numCols (gameState w)) (width pattern) in
  let w := withGameState w
             (setGrid (loadPattern (grid (gameState w)) pattern startRow startCol)
                      (gameState w)) in
  let w := withGameState w (setGeneration 0 (gameState w)) in
  withGameState w (setStatus paused (gameState w)).

(** The world once the constructor of [GameOfLife] has run. *)
Definition initialWorld : World :=
  {| gameState := createInitialGameState below 0;
     intervals := [];
     nextTimerId := 0;
     randomDrawn := (initialGridRows CONFIG * initialGridCols CONFIG)%nat;
     consoleLog := [] |}.

(** ** [src/input.ts]: the commands *)

(** What the page can deliver to the session: the clicks on the five
    buttons, a value of the speed slider, a cell of the canvas with the
    state to draw, a pattern of the catalogue, and the expiry of a
    timer. *)
Inductive Event : Type :=
| ClickStart
| ClickStop
| ClickStep
| ClickReset
| ClickClear
| SliderInput (sliderValue : Z)
| CanvasCell (row col : Z) (explicitState : option CellState)
| TemplateChange (pattern : Pattern)
| TimerFires (id : nat).

(** The listener of the step button. *)
Definition onStepClick (w : World) : option World :=
  if decide (status (gameState w) = paused) then stepGeneration w else Some w.

(** The listener of the speed slider. *)
Definition onSliderInput (sliderValue : Z) (w : World) : World :=
  let interval :=
    maxSimulationIntervalMs CONFIG - sliderValue + minSimulationIntervalMs CONFIG in
  handleSpeedChange interval w.

(** The callback of a timer runs only while the timer is registered. *)
Definition onTimer (id : nat) (w : World) : option World :=
  if decide (id ∈ (intervals w).*1) then stepGeneration w else Some w.

(** One listener; [None] when it throws. *)
Definition handle (e : Event) (w : World) : option World :=
  match e with
  | ClickStart => Some (startSimulation w)
  | ClickStop => Some (stopSimulation w)
  | ClickStep => onStepClick w
  | ClickReset => Some (randomizeGrid w)
  | ClickClear => Some (clearGrid w)
  | SliderInput v => Some (onSliderInput v w)
  | CanvasCell row col s => Some (handleCellToggle row col s w)
  | TemplateChange p => Some (handleLoadPattern p w)
  | TimerFires id => onTimer id w
  end.

(** The event loop: a listener that throws leaves the world as it found
    it, since the only statement that can throw is the first one of
    [stepGeneration]. *)
Definition dispatch (w : World) (e : Event) : World :=
  default w (handle e w).

Definition run (es : list Event) (w : World) : World :=
  foldl dispatch w es.

Inductive reachable : World -> Prop :=
| reachable_initial : reachable initialWorld
| reachable_dispatch w e : reachable w -> reachable (dispatch w e).

End Session.

(** ** Notions used in the statements *)

(** The value that the repaired grid holds at a position inside its
    bounds: the cell of [g] when [g] has one there, a dead cell when the
    row is missing or too short. *)
Definition prior (g : Grid) (r c : nat) : CellState :=
  default Dead (cellAt g (Z.of_nat r) (Z.of_nat c)).

Definition inBounds (g : Grid) (row col : Z) : Prop :=
  0 <= row < Z.of_nat (length g) /\ 0 <= col < Z.of_nat (expectedNumCols g).

(** The value written to the target cell. *)
Definition written (newState : option CellState) (cell : CellState) : CellState :=
  match newState with
  | Some s => s
  | None => toggle cell
  end.

(** The absolute target of an offset lies inside the bounds. *)
Definition targetInside (numRows expectedNumCols : nat) (startRow startCol : Z)
    (offset : Z * Z) : Prop :=
  0 <= startRow + offset.1 < Z.of_nat numRows
  /\ 0 <= startCol + offset.2 < Z.of_nat expectedNumCols.

#[global] Instance targetInside_dec nr nc sr sc offset :
  Decision (targetInside nr nc sr sc offset).
Proof. unfold targetInside. apply _. Defined.

(** The pattern without the offsets whose target lies outside the bounds. *)
Definition withoutOutside (g : Grid) (startRow startCol : Z) (p : Pattern) : Pattern :=
  {| name := name p;
     data := filter (targetInside (length g) (expectedNumCols g) startRow startCol)
                    (data p);
     width := width p;
     height := height p |}.

(** The eight surrounding positions, as offsets. *)
Definition neighbourOffsets : list (Z * Z) :=
  [(-1, -1); (-1, 0); (-1, 1); (0, -1); (0, 1); (1, -1); (1, 0); (1, 1)].

(** The number of live neighbours as the specification words it: among the
    eight surrounding positions, with the row index taken modulo the number
    of rows and the column index modulo the number of columns. *)
Definition toroidalLiveNeighbours (g : Grid) (numRows numCols : nat) (r c : nat) : nat :=
  length (filter (fun d : Z * Z =>
                    cellAt g ((Z.of_nat r + d.1) `mod` Z.of_nat numRows)
                             ((Z.of_nat c + d.2) `mod` Z.of_nat numCols) = Some Alive)
                 neighbourOffsets).

Definition indicator (P : Prop) `{Decision P} : nat := if decide P then 1%nat else 0%nat.

(** One row of the next generation. *)
Definition nextRow (g : Grid) (row : nat) (cells : Row) : Row :=
  imap (fun col currentCellState =>
          applyRules currentCellState
            (countLiveNeighbors g (length g) (default 0%nat (firstRowLength g)) row col))
       cells.

(** The timer of the session: while the status is [running] exactly one
    timer is registered, the one that [timerId] names, with the current
    [simulationInterval] as its delay; otherwise none is. *)
Definition timersConsistent (w : World) : Prop :=
  match status (gameState w) with
  | running =>
      exists id, timerId (gameState w) = Some id
        /\ intervals w = [(id, simulationInterval (gameState w))]
  | _ => timerId (gameState w) = None /\ intervals w = []
  end.

(** What a handler leaves alone when it only stops or starts the timer. *)
Definition sameBoard (w w' : World) : Prop :=
  grid (gameState w') = grid (gameState w)
  /\ generation (gameState w') = generation (gameState w)
  /\ numRows (gameState w') = numRows (gameState w)
  /\ numCols (gameState w') = numCols (gameState w)
  /\ simulationInterval (gameState w') = simulationInterval (gameState w)
  /\ randomDrawn w' = randomDrawn w.

(** The shape of the grid of the session. *)
Definition boardShaped (w : World) : Prop :=
  numRows (gameState w) = initialGridRows CONFIG
  /\ numCols (gameState w) = initialGridCols CONFIG
  /\ length (grid (gameState w)) = numRows (gameState w)
  /\ rectangular (numCols (gameState w)) (grid (gameState w)).

Definition sessionInvariant (w : World) : Prop :=
  timersConsistent w /\ status (gameState w) <> stopped /\ boardShaped w.

(** What the three commands that replace the grid have in common. *)
Definition replacedBy (g : Grid) (w w' : World) : Prop :=
  status (gameState w') = paused
  /\ generation (gameState w') = 0%nat
  /\ grid (gameState w') = g
  /\ timerId (gameState w') = None
  /\ intervals w' = []
  /\ numRows (gameState w') = numRows (gameState w)
  /\ numCols (gameState w') = numCols (gameState w)
  /\ simulationInterval (gameState w') = simulationInterval (gameState w).

(** A running session with one timer, on a grid of two rows. *)
Definition runningWorld : World :=
  {| gameState :=
       {| grid := [Some [Alive; Dead]; Some [Dead; Alive]];
          numRows := 2; numCols := 2; generation := 7; status := running;
          simulationInterval := 200; timerId := Some 3%nat;
          isDrawing := false; drawMode := Alive |};
     intervals := [(3%nat, 200)];
     nextTimerId := 4;
     randomDrawn := 4;
     consoleLog := [] |}.

(** The same session, paused. *)
Definition pausedWorld : World :=
  {| gameState :=
       {| grid := [Some [Alive; Dead]; Some [Dead; Alive]];
          numRows := 2; numCols := 2; generation := 7; status := paused;
          simulationInterval := 200; timerId := None;
          isDrawing := false; drawMode := Alive |};
     intervals := [];
     nextTimerId := 4;
     randomDrawn := 4;
     consoleLog := [] |}.

Definition isStepClick (e : Event) : bool :=
  match e with
  | ClickStep => true
  | _ => false
  end.

(** The events that do not end a run: all but stop, randomize, clear and
    load-pattern. *)
Definition keepsRunning (e : Event) : bool :=
  match e with
  | ClickStop | ClickReset | ClickClear | TemplateChange _ => false
  | _ => true
  end.

(** [PRESET_PATTERNS.glider] of [src/patterns.ts]. *)
Definition glider : Pattern :=
  {| name := "Glider";
     data := [(0, 1); (1, 2); (2, 0); (2, 1); (2, 2)];
     width := 3;
     height := 3 |}.

(** [n] calls of [calculateNextGeneration] in a row. *)
Definition generations (n : nat) (g : Grid) : option Grid :=
  Nat.iter n (fun o => o ≫= calculateNextGeneration) (Some g).

(** ** [src/patterns.ts] *)

Definition lwss : Pattern :=
  {| name := "LWSS";
     data := [(0, 1); (0, 2); (0, 3); (0, 4);
              (1, 0); (1, 4);
              (2, 4);
              (3, 0); (3, 3)];
     width := 5;
     height := 4 |}.

Definition pulsar : Pattern :=
  {| name := "Pulsar";
     data := [(0, 2); (0, 3); (0, 4); (0, 8); (0, 9); (0, 10);
              (2, 0); (2, 5); (2, 7); (2, 12);
              (3, 0); (3, 5); (3, 7); (3, 12);
              (4, 0); (4, 5); (4, 7); (4, 12);
              (5, 2); (5, 3); (5, 4); (5, 8); (5, 9); (5, 10);
              (0, 12 - 2); (0, 12 - 3); (0, 12 - 4);
              (12 - 0, 2); (12 - 0, 3); (12 - 0, 4); (12 - 0, 8); (12 - 0, 9); (12 - 0, 10);
              (12 - 2, 0); (12 - 2, 5); (12 - 2, 7); (12 - 2, 12);
              (12 - 3, 0); (12 - 3, 5); (12 - 3, 7); (12 - 3, 12);
              (12 - 4, 0); (12 - 4, 5); (12 - 4, 7); (12 - 4, 12);
              (12 - 5, 2); (12 - 5, 3); (12 - 5, 4); (12 - 5, 8); (12 - 5, 9); (12 - 5, 10)];
     width := 13;
     height := 13 |}.

Definition gosperGliderGun : Pattern :=
  {| name := "Gosper Glider Gun";
     data := [(0, 24);
              (1, 22); (1, 24);
              (2, 12); (2, 13); (2, 20); (2, 21); (2, 34); (2, 35);
              (3, 11); (3, 15); (3, 20); (3, 21); (3, 34); (3, 35);
              (4, 0); (4, 1); (4, 10); (4, 16); (4, 20); (4, 21);
              (5, 0); (5, 1); (5, 10); (5, 14); (5, 16); (5, 17); (5, 22); (5, 24);
              (6, 10); (6, 16); (6, 24);
              (7, 11); (7, 15);
              (8, 12); (8, 13)];
     width := 36;
     height := 9 |}.

(** The entries of [PRESET_PATTERNS], in the order of the source. *)
Definition presetEntries : list (string * Pattern) :=
  [("glider", glider); ("lwss", lwss); ("pulsar", pulsar);
   ("gosperGliderGun", gosperGliderGun)].

(** [PRESET_PATTERNS], read by its own keys only. *)
Definition PRESET_PATTERNS : gmap string Pattern := list_to_map presetEntries.

(** ** [src/input.ts]: the template selector and the canvas *)

(** The listener of the template selector, for the values that the
    options of the selector carry (the empty string and keys of the
    catalogue): the selected value must be a non-empty string and a key of
    the catalogue. *)
Definition onTemplateChange (selectedValue : string) (w : World) : World :=
  match selectedValue with
  | EmptyString => w
  | _ =>
      match PRESET_PATTERNS !! selectedValue with
      | Some pattern => handleLoadPattern pattern w
      | None => w
      end
  end.

(** The closure of [setupInputHandlers]: the session and the local
    variable [isMouseDown]. *)
Record InputState : Type := mkInputState {
  world : World;
  isMouseDown : bool
}.

Definition setDrawMode (m : CellState) (gs : GameState) : GameState :=
  {| grid := grid gs; numRows := numRows gs; numCols := numCols gs;
     generation := generation gs; status := status gs;
     simulationInterval := simulationInterval gs; timerId := timerId gs;
     isDrawing := isDrawing gs; drawMode := m |}.

(** The listener of [mousedown].  [cellCoords] is what
    [getCellCoordinatesFromClick] returned for the pointer position:
    [None] for [null]. *)
Definition onMouseDown (cellCoords : option (Z * Z)) (s : InputState) : InputState :=
  if decide (status (gameState (world s)) <> paused) then s
  else
    match cellCoords with
    | Some (row, col) =>
        let currentCellState := cellAt (grid (gameState (world s))) row col in
        let mode := if decide (currentCellState = Some Alive) then Dead else Alive in
        let w := withGameState (world s) (setDrawMode mode (gameState (world s))) in
        {| world := handleCellToggle row col (Some (drawMode (gameState w))) w;
           isMouseDown := true |}
    | None => {| world := world s; isMouseDown := true |}
    end.

(** The listener of [mousemove]. *)
Definition onMouseMove (cellCoords : option (Z * Z)) (s : InputState) : InputState :=
  if negb (isMouseDown s) || negb (bool_decide (status (gameState (world s)) = paused))
  then s
  else
    match cellCoords with
    | Some (row, col) =>
        if decide (cellAt (grid (gameState (world s))) row col
                   <> Some (drawMode (gameState (world s))))
        then {| world := handleCellToggle row col (Some (drawMode (gameState (world s))))
                           (world s);
                isMouseDown := isMouseDown s |}
        else s
    | None => s
    end.

(** The listeners of [mouseup] and [mouseleave]. *)
Definition onMouseUp (s : InputState) : InputState :=
  {| world := world s; isMouseDown := false |}.

(** A gesture after its [mousedown]: the cells that the pointer moves
    over, in order. *)
Definition drag (cells : list (Z * Z)) (s : InputState) : InputState :=
  foldl (fun s cell => onMouseMove (Some cell) s) s cells.

(** Every offset of the pattern lies in the box that the pattern declares,
    and the box is not larger than a grid of [nr] rows and [nc] columns. *)
Definition fits (p : Pattern) (nr nc : nat) : Prop :=
  Forall (fun offset : Z * Z =>
            0 <= offset.1 < height p /\ 0 <= offset.2 < width p) (data p)
  /\ height p <= Z.of_nat nr /\ width p <= Z.of_nat nc.

(** The value that [setupInputHandlers] gives the speed slider for the
    interval of the session:
    [CONFIG.maxSimulationIntervalMs - simulationInterval + CONFIG.minSimulationIntervalMs]. *)
Definition sliderValueFor (w : World) : Z :=
  maxSimulationIntervalMs CONFIG - simulationInterval (gameState w)
  + minSimulationIntervalMs CONFIG.

(** * Properties *)

(** ** Rows and their repair *)

Lemma copyInto_from (oldContent : Row) : forall (k : nat) (base : Row),
  (k + length oldContent <= length base)%nat ->
  foldl (fun acc iv => <[iv.1 := iv.2]> acc) base
        (imap (fun i v => ((k + i)%nat, v)) oldContent)
  = take k base ++ oldContent ++ drop (k + length oldContent) base.
Proof.
  induction oldContent as [|v old IH]; intros k base Hlen; simpl in *.
  - rewrite Nat.add_0_r. symmetry. apply take_drop.
  - rewrite Nat.add_0_r.
    rewrite (imap_ext _ (fun i v => ((S k + i)%nat, v)));
      [| intros i x _; simpl; f_equal; lia].
    rewrite IH by (rewrite length_insert; lia).
    rewrite drop_insert_lt by lia.
    rewrite (take_S_r _ _ v) by (apply list_lookup_insert_eq; lia).
    rewrite take_insert_ge by lia.
    replace (S k + length old)%nat with (k + S (length old))%nat by lia.
    by rewrite <- app_assoc.
Qed.

Lemma copyInto_app (oldContent base : Row) :
  (length oldContent <= length base)%nat ->
  copyInto oldContent base = oldContent ++ drop (length oldContent) base.
Proof.
  intros Hlen. unfold copyInto.
  rewrite (imap_ext _ (fun i v => ((0 + i)%nat, v))) by done.
  by rewrite copyInto_from.
Qed.

(** What [sanitizeRow] returns, without the loop. *)
Lemma sanitizeRow_padded (n : nat) (slot : option Row) :
  sanitizeRow n slot
  = take n (default [] slot) ++ replicate (n - length (default [] slot)) Dead.
Proof.
  unfold sanitizeRow. destruct slot as [cells|]; simpl.
  - destruct (Nat.ltb_spec (length cells) n) as [Hlt|Hge].
    + rewrite copyInto_app by (rewrite length_replicate; lia).
      rewrite drop_replicate, take_ge by lia. done.
    + replace (n - length cells)%nat with 0%nat by lia. simpl.
      rewrite app_nil_r.
      destruct (Nat.ltb_spec n (length cells)); [done|].
      rewrite take_ge by lia. done.
  - rewrite length_replicate, Nat.ltb_irrefl, Nat.sub_0_r, take_nil. done.
Qed.

Lemma sanitizeRow_length (n : nat) (slot : option Row) :
  length (sanitizeRow n slot) = n.
Proof.
  rewrite sanitizeRow_padded, length_app, length_take, length_replicate. lia.
Qed.

Lemma sanitizeRow_lookup (n : nat) (slot : option Row) (c : nat) :
  (c < n)%nat ->
  sanitizeRow n slot !! c = Some (default Dead (default [] slot !! c)).
Proof.
  intros Hc. rewrite sanitizeRow_padded.
  destruct (decide (c < length (default [] slot))%nat) as [Hlt|Hge].
  - rewrite lookup_app_l by (rewrite length_take; lia).
    rewrite lookup_take_lt by lia.
    destruct (lookup_lt_is_Some_2 _ _ Hlt) as [v ->]. done.
  - rewrite lookup_app_r by (rewrite length_take; lia).
    rewrite (lookup_ge_None_2 (default [] slot)) by lia. simpl.
    apply lookup_replicate_2. rewrite length_take. lia.
Qed.

Lemma sanitizeRow_exact (n : nat) (cells : Row) :
  length cells = n -> sanitizeRow n (Some cells) = cells.
Proof.
  intros <-. rewrite sanitizeRow_padded. simpl.
  rewrite firstn_all, Nat.sub_diag. apply app_nil_r.
Qed.

(** Repairing the rows of a rectangular grid changes nothing. *)
Lemma sanitizeRow_rectangular (n : nat) (g : Grid) :
  rectangular n g -> (fun slot => Some (sanitizeRow n slot)) <$> g = g.
Proof.
  intros Hrect. apply list_eq. intros r. rewrite list_lookup_fmap.
  destruct (g !! r) as [slot|] eqn:Hslot; [|done]. simpl.
  unfold rectangular in Hrect. rewrite Forall_lookup in Hrect.
  destruct (Hrect r slot Hslot) as (cells & -> & Hlen).
  by rewrite sanitizeRow_exact.
Qed.

(** ** Cells of a grid *)

Lemma cellAt_nat (g : Grid) (r c : nat) :
  cellAt g (Z.of_nat r) (Z.of_nat c)
  = match g !! r with
    | Some (Some cells) => cells !! c
    | _ => None
    end.
Proof.
  unfold cellAt.
  destruct (Z.ltb_spec (Z.of_nat r) 0); [lia|].
  destruct (Z.ltb_spec (Z.of_nat c) 0); [lia|]. simpl.
  by rewrite !Nat2Z.id.
Qed.

Lemma cellAt_outside (g : Grid) (r c : Z) :
  r < 0 \/ Z.of_nat (length g) <= r \/ c < 0 -> cellAt g r c = None.
Proof.
  intros H. unfold cellAt.
  destruct (Z.ltb_spec r 0); [done|].
  destruct (Z.ltb_spec c 0); [done|]. simpl.
  rewrite lookup_ge_None_2; [done|lia].
Qed.

Lemma sanitizeRow_prior (g : Grid) (n r c : nat) (slot : option Row) :
  g !! r = Some slot -> (c < n)%nat ->
  sanitizeRow n slot !! c = Some (prior g r c).
Proof.
  intros Hr Hc. rewrite sanitizeRow_lookup by done.
  unfold prior. rewrite cellAt_nat, Hr.
  destruct slot as [cells|]; simpl; [done|]. by destruct c.
Qed.

Lemma rectangular_lookup (n : nat) (g : Grid) (r : nat) (slot : option Row) :
  rectangular n g -> g !! r = Some slot ->
  exists cells : Row, slot = Some cells /\ length cells = n.
Proof.
  intros Hrect Hr. unfold rectangular in Hrect.
  rewrite Forall_lookup in Hrect. by apply (Hrect r).
Qed.

Lemma rectangular_firstRowLength (n : nat) (g : Grid) :
  rectangular n g -> g <> [] -> firstRowLength g = Some n.
Proof.
  intros Hrect Hne. destruct g as [|slot g]; [done|].
  destruct (rectangular_lookup n (slot :: g) 0 slot Hrect eq_refl)
    as (cells & -> & Hlen).
  unfold firstRowLength. simpl. by rewrite Hlen.
Qed.

Lemma rectangular_expected (n : nat) (g : Grid) :
  rectangular n g -> g <> [] -> expectedNumCols g = n.
Proof.
  intros Hrect Hne. unfold expectedNumCols.
  by rewrite (rectangular_firstRowLength n).
Qed.

Lemma rectangular_cell (n : nat) (g : Grid) (r c : nat) :
  rectangular n g -> (r < length g)%nat -> (c < n)%nat ->
  cellAt g (Z.of_nat r) (Z.of_nat c) = Some (prior g r c).
Proof.
  intros Hrect Hr Hc. unfold prior. rewrite cellAt_nat.
  destruct (lookup_lt_is_Some_2 g r Hr) as [slot Hslot]. rewrite Hslot.
  destruct (rectangular_lookup n g r slot Hrect Hslot) as (cells & -> & Hlen).
  destruct (lookup_lt_is_Some_2 cells c ltac:(lia)) as [v ->]. done.
Qed.

Lemma rectangular_wellTyped (n : nat) (g : Grid) : rectangular n g -> wellTyped g.
Proof.
  unfold rectangular, wellTyped. intros Hrect.
  eapply Forall_impl; [exact Hrect|].
  intros slot (cells & -> & _). by eexists.
Qed.

(** Two rectangular grids of the same shape with the same cells are equal. *)
Lemma grid_ext (n : nat) (g1 g2 : Grid) :
  rectangular n g1 -> rectangular n g2 -> length g1 = length g2 ->
  (forall r c : nat, (r < length g1)%nat -> (c < n)%nat ->
     cellAt g1 (Z.of_nat r) (Z.of_nat c) = cellAt g2 (Z.of_nat r) (Z.of_nat c)) ->
  g1 = g2.
Proof.
  intros H1 H2 Hlen Hcells. apply list_eq. intros r.
  destruct (decide (r < length g1)%nat) as [Hr|Hr].
  - destruct (lookup_lt_is_Some_2 g1 r Hr) as [s1 Hs1].
    destruct (lookup_lt_is_Some_2 g2 r ltac:(lia)) as [s2 Hs2].
    destruct (rectangular_lookup n g1 r s1 H1 Hs1) as (c1 & -> & Hl1).
    destruct (rectangular_lookup n g2 r s2 H2 Hs2) as (c2 & -> & Hl2).
    rewrite Hs1, Hs2. do 2 f_equal. apply list_eq. intros c.
    destruct (decide (c < n)%nat) as [Hc|Hc].
    + specialize (Hcells r c Hr Hc). by rewrite !cellAt_nat, Hs1, Hs2 in Hcells.
    + rewrite !lookup_ge_None_2; [done|lia|lia].
  - rewrite !lookup_ge_None_2; [done|lia|lia].
Qed.

(** ** [setCellState] *)

Lemma setCellState_outside (g : Grid) (row col : Z) (newState : option CellState) :
  ~ inBounds g row col ->
  setCellState g row col newState
  = mkLogged g [mkConsoleMessage LevelWarn (row, col) (length g, expectedNumCols g)].
Proof.
  intros Hout. unfold setCellState, inBounds in *.
  destruct (Z.ltb_spec row 0); [done|].
  destruct (Z.geb_spec row (Z.of_nat (length g))); [done|].
  destruct (Z.ltb_spec col 0); [done|].
  destruct (Z.geb_spec col (Z.of_nat (expectedNumCols g))); [done|].
  lia.
Qed.

Lemma setCellState_inside (g : Grid) (row col : Z) (newState : option CellState) :
  inBounds g row col ->
  setCellState g row col newState
  = mkLogged
      (imap (fun rIndex currentRowArray =>
               if negb (Z.of_nat rIndex =? row) then Some currentRowArray
               else Some (imap (fun cIndex cell =>
                                  if negb (Z.of_nat cIndex =? col) then cell
                                  else written newState cell)
                               currentRowArray))
            (map (sanitizeRow (expectedNumCols g)) g))
      [].
Proof.
  intros [Hr Hc]. unfold setCellState.
  destruct (Z.ltb_spec row 0); [lia|].
  destruct (Z.geb_spec row (Z.of_nat (length g))); [lia|].
  destruct (Z.ltb_spec col 0); [lia|].
  destruct (Z.geb_spec col (Z.of_nat (expectedNumCols g))); [lia|].
  done.
Qed.

Lemma setCellState_length (g : Grid) (row col : Z) (newState : option CellState) :
  length (value (setCellState g row col newState)) = length g.
Proof.
  destruct (decide (inBounds g row col)) as [Hin|Hout].
  - rewrite setCellState_inside by done. simpl.
    by rewrite length_imap, length_map.
  - by rewrite setCellState_outside.
Qed.

Lemma setCellState_rectangular (g : Grid) (row col : Z) (newState : option CellState) :
  inBounds g row col ->
  rectangular (expectedNumCols g) (value (setCellState g row col newState)).
Proof.
  intros Hin. rewrite setCellState_inside by done. simpl.
  unfold rectangular. rewrite Forall_lookup. intros r slot Hslot.
  rewrite list_lookup_imap, list_lookup_fmap in Hslot.
  destruct (g !! r) as [old|]; [|done]. simpl in Hslot.
  destruct (negb (Z.of_nat r =? row)); injection Hslot as <-; eexists; split; try done.
  - apply sanitizeRow_length.
  - rewrite length_imap. apply sanitizeRow_length.
Qed.

Lemma setCellState_cell (g : Grid) (row col : Z) (newState : option CellState)
    (r c : nat) :
  inBounds g row col -> (r < length g)%nat -> (c < expectedNumCols g)%nat ->
  cellAt (value (setCellState g row col newState)) (Z.of_nat r) (Z.of_nat c)
  = Some (if decide (Z.of_nat r = row /\ Z.of_nat c = col)
          then written newState (prior g r c)
          else prior g r c).
Proof.
  intros Hin Hr Hc. rewrite setCellState_inside by done. simpl.
  rewrite cellAt_nat, list_lookup_imap, list_lookup_fmap.
  destruct (lookup_lt_is_Some_2 g r Hr) as [slot Hslot]. rewrite Hslot. simpl.
  pose proof (sanitizeRow_prior g (expectedNumCols g) r c slot Hslot Hc) as Hp.
  destruct (Z.eqb_spec (Z.of_nat r) row) as [Er|Er]; simpl.
  - rewrite list_lookup_imap, Hp. simpl.
    destruct (Z.eqb_spec (Z.of_nat c) col) as [Ec|Ec]; simpl.
    + rewrite decide_True by done. done.
    + rewrite decide_False by tauto. done.
  - rewrite decide_False by tauto. done.
Qed.

Lemma rectangular_beyond (n : nat) (g : Grid) (r c : Z) :
  rectangular n g -> Z.of_nat n <= c -> cellAt g r c = None.
Proof.
  intros Hrect Hc. unfold cellAt.
  destruct ((r <? 0) || (c <? 0)); [done|].
  destruct (g !! Z.to_nat r) as [slot|] eqn:Hslot; [|done].
  destruct (rectangular_lookup n g _ slot Hrect Hslot) as (cells & -> & Hlen).
  apply lookup_ge_None_2. lia.
Qed.

Lemma inBounds_rectangular (n : nat) (g : Grid) (row col : Z) :
  rectangular n g ->
  0 <= row < Z.of_nat (length g) -> 0 <= col < Z.of_nat n ->
  expectedNumCols g = n /\ inBounds g row col.
Proof.
  intros Hrect Hr Hc.
  assert (expectedNumCols g = n) as He.
  { apply rectangular_expected; [done|]. intros ->. simpl in Hr. lia. }
  split; [done|]. unfold inBounds. rewrite He. lia.
Qed.

(** On a rectangular grid and inside its bounds, [setCellState] changes
    the target cell and nothing else. *)
Lemma setCellState_cells (n : nat) (g : Grid) (row col : Z)
    (newState : option CellState) :
  rectangular n g ->
  0 <= row < Z.of_nat (length g) -> 0 <= col < Z.of_nat n ->
  forall r c : Z,
    cellAt (value (setCellState g row col newState)) r c
    = if decide (r = row /\ c = col)
      then written newState <$> cellAt g r c
      else cellAt g r c.
Proof.
  intros Hrect Hr Hc r c.
  destruct (inBounds_rectangular n g row col Hrect Hr Hc) as [He Hin].
  pose proof (setCellState_rectangular g row col newState Hin) as Hrect'.
  pose proof (setCellState_length g row col newState) as Hlen'.
  rewrite He in Hrect'.
  destruct (decide (r < 0 \/ Z.of_nat (length g) <= r \/ c < 0)) as [Hout|Hins].
  - rewrite (cellAt_outside g) by done.
    rewrite cellAt_outside by (rewrite Hlen'; done).
    by destruct (decide _).
  - destruct (decide (Z.of_nat n <= c)) as [Hbig|Hsmall].
    + rewrite (rectangular_beyond n g), (rectangular_beyond n) by done.
      by destruct (decide _).
    + rewrite <- (Z2Nat.id r), <- (Z2Nat.id c) by lia.
      rewrite setCellState_cell by (rewrite ?He; done || lia).
      rewrite (rectangular_cell n g) by (done || lia).
      rewrite !Z2Nat.id by lia.
      by destruct (decide _).
Qed.

(** C3.  On a rectangular grid and for a position inside its bounds,
    [setCellState] with an explicit state returns a grid that holds this
    state at the position; without one it returns a grid in which the cell
    at the position is toggled, a live cell dead and a dead cell alive; and
    every other cell of the result is the cell of the input at the same
    position. *)
Theorem setCellState_sets_or_toggles (n : nat) (g : Grid) (row col : Z)
    (newState : option CellState) :
  rectangular n g ->
  0 <= row < Z.of_nat (length g) -> 0 <= col < Z.of_nat n ->
  let g' := value (setCellState g row col newState) in
  (forall explicitState, newState = Some explicitState ->
     cellAt g' row col = Some explicitState)
  /\ (newState = None ->
      exists cell, cellAt g row col = Some cell
        /\ cellAt g' row col = Some (match cell with Alive => Dead | Dead => Alive end))
  /\ (forall r c : Z, (r, c) <> (row, col) -> cellAt g' r c = cellAt g r c)
  /\ length g' = length g /\ rectangular n g'.
Proof.
  intros Hrect Hr Hc g'.
  pose proof (setCellState_cells n g row col newState Hrect Hr Hc) as Hcells.
  destruct (inBounds_rectangular n g row col Hrect Hr Hc) as [He Hin].
  assert (exists cell, cellAt g row col = Some cell) as [cell Hcell].
  { exists (prior g (Z.to_nat row) (Z.to_nat col)).
    rewrite <- (rectangular_cell n) by (done || lia).
    by rewrite !Z2Nat.id by lia. }
  repeat split.
  - intros s ->. subst g'. rewrite Hcells, decide_True, Hcell by done. done.
  - intros ->. exists cell. split; [done|].
    subst g'. rewrite Hcells, decide_True, Hcell by done. by destruct cell.
  - intros r c Hne. subst g'. rewrite Hcells, decide_False; [done|].
    intros [-> ->]. done.
  - apply setCellState_length.
  - rewrite <- He. by apply setCellState_rectangular.
Qed.

Lemma setCellState_sets_or_toggles_witness :
  let g : Grid := [Some [Dead; Alive; Dead]; Some [Alive; Alive; Dead]] in
  value (setCellState g 1 2 None) = [Some [Dead; Alive; Dead]; Some [Alive; Alive; Alive]]
  /\ forall r c : Z, (r, c) <> (1, 2) ->
       cellAt (value (setCellState g 1 2 None)) r c = cellAt g r c.
Proof.
  split; [reflexivity|].
  apply (setCellState_sets_or_toggles 3
           [Some [Dead; Alive; Dead]; Some [Alive; Alive; Dead]] 1 2 None).
  - repeat constructor; eexists; split; reflexivity.
  - simpl; lia.
  - lia.
Defined.

(** C4.  For a position outside the bounds (a negative row, a row that is
    not below the number of rows, a negative column, or a column that is
    not below the length of row 0 or, when there is no row 0,
    [CONFIG.initialGridCols]), [setCellState] returns the input grid as it
    is and writes one message to the console, at warning level; so it does
    for row [-1] and for row [numRows], both with column [0]. *)
Theorem setCellState_out_of_bounds (g : Grid) (row col : Z)
    (newState : option CellState) :
  row < 0 \/ row >= Z.of_nat (length g) \/ col < 0
    \/ col >= Z.of_nat (expectedNumCols g) ->
  value (setCellState g row col newState) = g
  /\ level <$> console (setCellState g row col newState) = [LevelWarn]
  /\ value (setCellState g (-1) 0 newState) = g
  /\ value (setCellState g (Z.of_nat (length g)) 0 newState) = g.
Proof.
  intros Hout.
  rewrite !setCellState_outside; [done| | |]; unfold inBounds; lia.
Qed.

Lemma setCellState_out_of_bounds_witness :
  let g : Grid := [Some [Dead; Alive]; Some [Alive]; None] in
  value (setCellState g 3 0 (Some Alive)) = g
  /\ level <$> console (setCellState g 3 0 (Some Alive)) = [LevelWarn]
  /\ value (setCellState g (-1) 0 (Some Alive)) = g
  /\ value (setCellState g 3 0 (Some Alive)) = g.
Proof.
  apply (setCellState_out_of_bounds [Some [Dead; Alive]; Some [Alive]; None]
           3 0 (Some Alive)).
  right; left. simpl. lia.
Defined.

Lemma toggle_toggle (cell : CellState) : toggle (toggle cell) = cell.
Proof. by destruct cell. Qed.

(** C10.  On a rectangular grid and for a position inside its bounds,
    toggling the same cell twice with [setCellState] gives back the
    original grid. *)
Theorem setCellState_toggle_twice (n : nat) (g : Grid) (row col : Z) :
  rectangular n g ->
  0 <= row < Z.of_nat (length g) -> 0 <= col < Z.of_nat n ->
  value (setCellState (value (setCellState g row col None)) row col None) = g.
Proof.
  intros Hrect Hr Hc.
  destruct (inBounds_rectangular n g row col Hrect Hr Hc) as [He Hin].
  set (g1 := value (setCellState g row col None)).
  assert (length g1 = length g) as Hlen1 by apply setCellState_length.
  assert (rectangular n g1) as Hrect1.
  { rewrite <- He. by apply setCellState_rectangular. }
  assert (0 <= row < Z.of_nat (length g1)) as Hr1 by lia.
  destruct (inBounds_rectangular n g1 row col Hrect1 Hr1 Hc) as [He1 Hin1].
  apply (grid_ext n).
  - rewrite <- He1. by apply setCellState_rectangular.
  - done.
  - rewrite setCellState_length. done.
  - intros r c _ _.
    rewrite (setCellState_cells n g1) by done. subst g1.
    rewrite (setCellState_cells n g) by done.
    destruct (decide _); [|done].
    destruct (cellAt g _ _) as [cell|]; [|done]. simpl.
    by rewrite toggle_toggle.
Qed.

Lemma setCellState_toggle_twice_witness :
  let g : Grid := [Some [Dead; Alive; Dead]; Some [Alive; Alive; Dead]] in
  value (setCellState (value (setCellState g 0 1 None)) 0 1 None) = g.
Proof.
  apply (setCellState_toggle_twice 3
           [Some [Dead; Alive; Dead]; Some [Alive; Alive; Dead]] 0 1).
  - repeat constructor; eexists; split; reflexivity.
  - simpl; lia.
  - lia.
Defined.

(** ** [loadPattern] *)

Lemma targetInside_test (nr nc : nat) (sr sc : Z) (offset : Z * Z) :
  (sr + offset.1 >=? 0) && (sr + offset.1 <? Z.of_nat nr)
    && (sc + offset.2 >=? 0) && (sc + offset.2 <? Z.of_nat nc)
  = bool_decide (targetInside nr nc sr sc offset).
Proof.
  unfold targetInside.
  destruct (Z.geb_spec (sr + offset.1) 0), (Z.ltb_spec (sr + offset.1) (Z.of_nat nr)),
           (Z.geb_spec (sc + offset.2) 0), (Z.ltb_spec (sc + offset.2) (Z.of_nat nc));
    simpl; symmetry;
    first [ apply bool_decide_eq_true; lia | apply bool_decide_eq_false; lia ].
Qed.

Lemma patternLiveCells_fold (nr nc : nat) (sr sc : Z) (offsets : list (Z * Z)) :
  forall (acc : gset (Z * Z)) (rc : Z * Z),
  rc ∈ foldl (fun (acc : gset (Z * Z)) offset =>
                let rTarget := sr + offset.1 in
                let cTarget := sc + offset.2 in
                if (rTarget >=? 0) && (rTarget <? Z.of_nat nr)
                   && (cTarget >=? 0) && (cTarget <? Z.of_nat nc)
                then {[ (rTarget, cTarget) ]} ∪ acc
                else acc) acc offsets
  <-> rc ∈ acc
      \/ exists offset, offset ∈ offsets /\ targetInside nr nc sr sc offset
           /\ rc = (sr + offset.1, sc + offset.2).
Proof.
  induction offsets as [|o offsets IH]; intros acc rc; simpl.
  - set_solver.
  - rewrite IH, targetInside_test.
    case_bool_decide; set_unfold; naive_solver.
Qed.

Lemma elem_of_patternLiveCells (nr nc : nat) (p : Pattern) (sr sc r c : Z) :
  (r, c) ∈ patternLiveCells nr nc p sr sc
  <-> exists offset, offset ∈ data p /\ targetInside nr nc sr sc offset
        /\ r = sr + offset.1 /\ c = sc + offset.2.
Proof.
  unfold patternLiveCells. rewrite patternLiveCells_fold. split.
  - intros [H|(o & Ho & Hin & Heq)]; [by apply not_elem_of_empty in H|].
    exists o. injection Heq as -> ->. done.
  - intros (o & Ho & Hin & -> & ->). right. by exists o.
Qed.

Lemma loadPattern_length (g : Grid) (p : Pattern) (sr sc : Z) :
  length (loadPattern g p sr sc) = length g.
Proof. unfold loadPattern. by rewrite length_imap, length_map. Qed.

Lemma loadPattern_rectangular (g : Grid) (p : Pattern) (sr sc : Z) :
  rectangular (expectedNumCols g) (loadPattern g p sr sc).
Proof.
  unfold loadPattern, rectangular. rewrite Forall_lookup. intros r slot Hslot.
  rewrite list_lookup_imap, list_lookup_fmap in Hslot.
  destruct (g !! r) as [old|]; [|done]. simpl in Hslot.
  injection Hslot as <-. eexists; split; [done|].
  rewrite length_imap. apply sanitizeRow_length.
Qed.

Lemma loadPattern_cell (g : Grid) (p : Pattern) (sr sc : Z) (r c : nat) :
  (r < length g)%nat -> (c < expectedNumCols g)%nat ->
  cellAt (loadPattern g p sr sc) (Z.of_nat r) (Z.of_nat c)
  = Some (if decide ((Z.of_nat r, Z.of_nat c)
                       ∈ patternLiveCells (length g) (expectedNumCols g) p sr sc)
          then Alive else prior g r c).
Proof.
  intros Hr Hc. unfold loadPattern.
  rewrite cellAt_nat, list_lookup_imap, list_lookup_fmap.
  destruct (lookup_lt_is_Some_2 g r Hr) as [slot Hslot]. rewrite Hslot. simpl.
  rewrite list_lookup_imap.
  rewrite (sanitizeRow_prior g (expectedNumCols g) r c slot Hslot Hc). done.
Qed.

(** C2, as the code has it.  For every grid that is an array without
    holes (its rows may be short, long, or [undefined]),
    every pattern and every start position, with the bounds being the
    number of rows of the grid and its expected number of columns: the
    result of [loadPattern] has the rows and columns of these bounds; the
    cell at the target of every pattern offset that lies inside the bounds
    is alive; the offsets whose target lies outside the bounds change
    nothing (the result is that of the pattern without them); a cell
    inside the bounds that no offset targets keeps the value it has in the
    input grid, and is dead where the input grid has no cell; the result
    has no cell outside the bounds, so the cells that a row of the input
    holds beyond the expected number of columns are cut off.  On a
    rectangular grid every cell that no offset targets keeps its value:
    there the loading is additive. *)
Theorem loadPattern_additive (g : Grid) (p : Pattern) (startRow startCol : Z) :
  let g' := loadPattern g p startRow startCol in
  let inside (r c : Z) :=
    0 <= r < Z.of_nat (length g) /\ 0 <= c < Z.of_nat (expectedNumCols g) in
  let targeted (r c : Z) :=
    exists offset, offset ∈ data p
      /\ r = startRow + offset.1 /\ c = startCol + offset.2 in
  length g' = length g
  /\ rectangular (expectedNumCols g) g'
  /\ (forall r c, inside r c -> targeted r c -> cellAt g' r c = Some Alive)
  /\ (forall r c, inside r c -> ~ targeted r c ->
        cellAt g' r c = Some (default Dead (cellAt g r c)))
  /\ (forall r c, ~ inside r c -> cellAt g' r c = None)
  /\ g' = loadPattern g (withoutOutside g startRow startCol p) startRow startCol
  /\ (rectangular (expectedNumCols g) g ->
      forall r c, ~ targeted r c -> cellAt g' r c = cellAt g r c).
Proof.
  intros g' inside targeted.
  assert (length g' = length g) as Hlen by apply loadPattern_length.
  assert (rectangular (expectedNumCols g) g') as Hrect
    by apply loadPattern_rectangular.
  assert (forall r c, inside r c ->
            cellAt g' r c
            = Some (if decide ((r, c) ∈ patternLiveCells (length g) (expectedNumCols g)
                                          p startRow startCol)
                    then Alive else default Dead (cellAt g r c))) as Hcell.
  { intros r c [Hr Hc]. subst g'.
    rewrite <- (Z2Nat.id r), <- (Z2Nat.id c) by lia.
    rewrite loadPattern_cell by lia. done. }
  assert (forall r c, inside r c -> ~ targeted r c ->
            cellAt g' r c = Some (default Dead (cellAt g r c))) as Hkeep.
  { intros r c Hin Hnot. rewrite Hcell, decide_False; [done| |done].
    rewrite elem_of_patternLiveCells. intros (offset & Ho & _ & -> & ->).
    apply Hnot. by exists offset. }
  assert (forall r c, ~ inside r c -> cellAt g' r c = None) as Hnone.
  { intros r c Hout. subst inside. simpl in Hout.
    destruct (decide (r < 0 \/ Z.of_nat (length g') <= r \/ c < 0)) as [H|H].
    - by apply cellAt_outside.
    - apply (rectangular_beyond (expectedNumCols g)); [done|lia]. }
  assert (g' = loadPattern g (withoutOutside g startRow startCol p) startRow startCol)
    as Hsame.
  { subst g'. unfold loadPattern. f_equal.
    assert (patternLiveCells (length g) (expectedNumCols g) p startRow startCol
            = patternLiveCells (length g) (expectedNumCols g)
                (withoutOutside g startRow startCol p) startRow startCol) as ->; [|done].
    apply set_eq. intros [r c]. rewrite !elem_of_patternLiveCells. simpl.
    split; intros (offset & Ho & Hin & Hrc); exists offset.
    - split; [|done]. by apply list_elem_of_filter.
    - apply list_elem_of_filter in Ho as [_ Ho]. done. }
  split; [done|]. split; [done|]. split; [|split; [done|split; [done|split; [done|]]]].
  - intros r c Hin (offset & Ho & -> & ->).
    rewrite Hcell, decide_True; [done| |done].
    apply elem_of_patternLiveCells. exists offset. by repeat split; try apply Hin.
  - intros Hrectg r c Hnot.
    destruct (decide (inside r c)) as [Hin|Hout].
    + rewrite Hkeep by done. destruct Hin as [Hr Hc].
      rewrite <- (Z2Nat.id r), <- (Z2Nat.id c) by lia.
      rewrite (rectangular_cell (expectedNumCols g)) by (done || lia). done.
    + rewrite Hnone by done. symmetry. subst inside. simpl in Hout.
      destruct (decide (r < 0 \/ Z.of_nat (length g) <= r \/ c < 0)) as [H|H].
      * by apply cellAt_outside.
      * apply (rectangular_beyond (expectedNumCols g)); [done|lia].
Qed.

(** C2, as the claim states it, fails: a live cell that a row holds beyond
    the expected number of columns is targeted by no offset and is gone
    from the result. *)
Lemma loadPattern_cuts_long_rows :
  ~ (forall (g : Grid) (p : Pattern) (startRow startCol r c : Z) (cell : CellState),
       cellAt g r c = Some cell ->
       ~ (exists offset, offset ∈ data p
            /\ targetInside (length g) (expectedNumCols g) startRow startCol offset
            /\ r = startRow + offset.1 /\ c = startCol + offset.2) ->
       cellAt (loadPattern g p startRow startCol) r c = Some cell).
Proof.
  intros H.
  specialize (H [Some [Dead; Dead]; Some [Dead; Dead; Alive]]
                (mkPattern "none" [] 0 0) 0 0 1 2 Alive eq_refl).
  assert (cellAt (loadPattern [Some [Dead; Dead]; Some [Dead; Dead; Alive]]
                    (mkPattern "none" [] 0 0) 0 0) 1 2 = None) as Hgone by reflexivity.
  rewrite H in Hgone; [discriminate|].
  intros (offset & Ho & _). simpl in Ho. by apply elem_of_nil in Ho.
Qed.

(** C5, as the code has it.  For every input grid that is an array
    without holes (its rows may be short, long, or [undefined]), the grid
    returned by [loadPattern] is rectangular, every row being an array of
    exactly the expected number of columns, and so is the grid returned by
    [setCellState] for a position inside the bounds; for a position
    outside the bounds [setCellState] returns the input grid itself, not
    repaired. *)
Theorem mutations_rectangular (g : Grid) (p : Pattern) (startRow startCol : Z)
    (row col : Z) (newState : option CellState) :
  rectangular (expectedNumCols g) (loadPattern g p startRow startCol)
  /\ length (loadPattern g p startRow startCol) = length g
  /\ (inBounds g row col ->
        rectangular (expectedNumCols g) (value (setCellState g row col newState))
        /\ length (value (setCellState g row col newState)) = length g)
  /\ (~ inBounds g row col -> value (setCellState g row col newState) = g).
Proof.
  split; [apply loadPattern_rectangular|].
  split; [apply loadPattern_length|].
  split.
  - intros Hin. split; [by apply setCellState_rectangular|apply setCellState_length].
  - intros Hout. by rewrite setCellState_outside.
Qed.

Lemma mutations_rectangular_witness :
  let g : Grid := [Some [Dead; Alive]; Some [Alive]; None; Some [Dead; Dead; Alive]] in
  rectangular 2 (value (setCellState g 2 1 None))
  /\ value (setCellState g 2 1 None)
     = [Some [Dead; Alive]; Some [Alive; Dead]; Some [Dead; Alive]; Some [Dead; Dead]].
Proof.
  split; [|reflexivity].
  apply (mutations_rectangular
           [Some [Dead; Alive]; Some [Alive]; None; Some [Dead; Dead; Alive]]
           (mkPattern "none" [] 0 0) 0 0 2 1 None).
  unfold inBounds, expectedNumCols. simpl. lia.
Defined.

(** C5, as the claim states it, fails: for a position outside the bounds
    [setCellState] returns a ragged grid as it received it. *)
Lemma setCellState_keeps_ragged :
  ~ (forall (g : Grid) (p : Pattern) (startRow startCol row col : Z)
            (newState : option CellState),
       rectangular (expectedNumCols g) (value (setCellState g row col newState))
       /\ rectangular (expectedNumCols g) (loadPattern g p startRow startCol)).
Proof.
  intros H.
  destruct (H [Some [Dead; Dead]; Some [Dead]] (mkPattern "none" [] 0 0) 0 0 (-1) 0 None)
    as [Hrect _].
  apply Forall_cons in Hrect as [_ Hrect].
  apply Forall_cons in Hrect as [(cells & Hcells & Hlen) _].
  injection Hcells as <-. discriminate Hlen.
Qed.

(** ** [calculateNextGeneration] *)

Lemma wrapped_mod (k : nat) (d : Z) (n : nat) :
  (0 < n)%nat -> -1 <= d ->
  Z.rem (Z.of_nat k + d + Z.of_nat n) (Z.of_nat n) = (Z.of_nat k + d) `mod` Z.of_nat n.
Proof.
  intros Hn Hd. rewrite Z.rem_mod_nonneg by lia.
  rewrite <- (Z_mod_plus_full (Z.of_nat k + d) 1 (Z.of_nat n)). f_equal. lia.
Qed.

Lemma count_if (P : Prop) `{Decision P} (k : nat) :
  (if decide P then S k else k) = (k + indicator P)%nat.
Proof. unfold indicator. destruct (decide P); lia. Qed.

Lemma length_filter_cons {A : Type} (P : A -> Prop) `{forall x, Decision (P x)}
    (x : A) (l : list A) :
  length (filter P (x :: l)) = (indicator (P x) + length (filter P l))%nat.
Proof. unfold indicator. rewrite filter_cons. by destruct (decide (P x)). Qed.

(** The loops of the code count what the specification describes. *)
Lemma countLiveNeighbors_toroidal (g : Grid) (numRows numCols r c : nat) :
  (0 < numRows)%nat -> (0 < numCols)%nat ->
  countLiveNeighbors g numRows numCols r c = toroidalLiveNeighbours g numRows numCols r c.
Proof.
  intros Hr Hc. unfold countLiveNeighbors, toroidalLiveNeighbours, loopRange, neighbourOffsets.
  cbn [foldl Z.eqb andb fst snd].
  rewrite !wrapped_mod by (done || lia).
  rewrite !length_filter_cons, filter_nil. cbn [fst snd length].
  rewrite !count_if. lia.
Qed.

Lemma applyRules_alive (cell : CellState) (k : nat) :
  applyRules cell k = Alive
  <-> (cell = Alive /\ (k = 2 \/ k = 3)%nat) \/ (cell = Dead /\ k = 3%nat).
Proof.
  unfold applyRules. destruct cell.
  - destruct (Nat.eqb_spec k 3); naive_solver.
  - destruct (Nat.ltb_spec k 2), (Nat.ltb_spec 3 k); simpl; naive_solver lia.
Qed.

Lemma calculateNextGeneration_empty (g : Grid) :
  length g = 0%nat \/ default 0%nat (firstRowLength g) = 0%nat ->
  calculateNextGeneration g = Some [].
Proof. intros H. unfold calculateNextGeneration. by rewrite decide_True. Qed.

Lemma calculateNextGeneration_rows (g : Grid) :
  wellTyped g ->
  length g <> 0%nat -> default 0%nat (firstRowLength g) <> 0%nat ->
  calculateNextGeneration g
  = Some (imap (fun row slot => Some (nextRow g row (default [] slot))) g).
Proof.
  intros Hwt Hr Hc. unfold calculateNextGeneration.
  rewrite decide_False by tauto.
  apply mapM_Some_2, Forall2_same_length_lookup_2.
  - by rewrite !length_imap.
  - intros i x y Hx Hy.
    rewrite list_lookup_imap in Hx. rewrite list_lookup_imap in Hy.
    destruct (g !! i) as [slot|] eqn:Hslot; [|done]. simpl in Hx, Hy.
    unfold wellTyped in Hwt. rewrite Forall_lookup in Hwt.
    destruct (Hwt i slot Hslot) as [cells ->].
    injection Hx as <-. injection Hy as <-. done.
Qed.

(** On a well-typed grid [calculateNextGeneration] does not throw, and its
    result is well-typed. *)
Lemma calculateNextGeneration_total (g : Grid) :
  wellTyped g ->
  exists g', calculateNextGeneration g = Some g' /\ wellTyped g'.
Proof.
  intros Hwt.
  destruct (decide (length g = 0%nat \/ default 0%nat (firstRowLength g) = 0%nat))
    as [Hempty|Hfull].
  - exists []. split; [by apply calculateNextGeneration_empty|]. constructor.
  - eexists. split; [apply calculateNextGeneration_rows; tauto|].
    unfold wellTyped. rewrite Forall_lookup. intros i slot Hslot.
    rewrite list_lookup_imap in Hslot.
    destruct (g !! i); [|done]. injection Hslot as <-. by eexists.
Qed.

Lemma minus_one_mod (n : nat) : (0 < n)%nat -> (-1) `mod` Z.of_nat n = Z.of_nat n - 1.
Proof.
  intros Hn. rewrite <- (Z_mod_plus_full (-1) 1 (Z.of_nat n)).
  replace (-1 + 1 * Z.of_nat n) with (Z.of_nat n - 1) by lia.
  apply Z.mod_small. lia.
Qed.

Lemma calculateNextGeneration_cell (n : nat) (g : Grid) (r c : nat) :
  rectangular n g -> (0 < n)%nat -> (r < length g)%nat -> (c < n)%nat ->
  exists g',
    calculateNextGeneration g = Some g'
    /\ cellAt g' (Z.of_nat r) (Z.of_nat c)
       = Some (applyRules (prior g r c) (toroidalLiveNeighbours g (length g) n r c)).
Proof.
  intros Hrect Hn Hr Hc.
  assert (g <> []) as Hne by (intros ->; simpl in Hr; lia).
  pose proof (rectangular_firstRowLength n g Hrect Hne) as Hfirst.
  eexists. split.
  { apply calculateNextGeneration_rows.
    - by apply (rectangular_wellTyped n).
    - lia.
    - rewrite Hfirst. simpl. lia. }
  pose proof (rectangular_cell n g r c Hrect Hr Hc) as Hcell.
  rewrite cellAt_nat in Hcell. rewrite cellAt_nat, list_lookup_imap.
  destruct (g !! r) as [[cells|]|]; try done. simpl.
  unfold nextRow. rewrite list_lookup_imap, Hcell, Hfirst. simpl.
  rewrite countLiveNeighbors_toroidal by lia. done.
Qed.

Lemma calculateNextGeneration_shape (n : nat) (g : Grid) :
  rectangular n g ->
  exists g',
    calculateNextGeneration g = Some g'
    /\ rectangular n g'
    /\ (g <> [] -> (0 < n)%nat -> length g' = length g).
Proof.
  intros Hrect.
  destruct (decide (length g = 0%nat \/ default 0%nat (firstRowLength g) = 0%nat))
    as [Hempty|Hfull].
  - exists []. split; [by apply calculateNextGeneration_empty|].
    split; [constructor|]. intros Hne Hn.
    rewrite (rectangular_firstRowLength n) in Hempty by done.
    destruct g; [done|]. simpl in Hempty. lia.
  - eexists. split.
    { apply calculateNextGeneration_rows; [by apply (rectangular_wellTyped n)|tauto..]. }
    split; [|by rewrite length_imap].
    unfold rectangular. rewrite Forall_lookup. intros i slot Hslot.
    rewrite list_lookup_imap in Hslot.
    destruct (g !! i) as [old|] eqn:Hold; [|done]. injection Hslot as <-.
    destruct (rectangular_lookup n g i old Hrect Hold) as (cells & -> & Hlen).
    eexists. split; [done|]. unfold nextRow. by rewrite length_imap.
Qed.

(** C1.  On a rectangular grid with at least one row and one column,
    [calculateNextGeneration] returns a grid of the same shape in which the
    cell at (r, c) is alive exactly when the current cell is alive with 2 or
    3 live neighbours or dead with exactly 3, the neighbours being the
    eight surrounding positions with the row index taken modulo the number
    of rows and the column index modulo the number of columns.  For the
    cell (0, 0) the diagonal position (-1, -1) is the position
    (numRows - 1, numCols - 1), and a live cell there is counted by the
    loops of the code. *)
Theorem calculateNextGeneration_life (n : nat) (g : Grid) :
  rectangular n g -> g <> [] -> (0 < n)%nat ->
  exists g',
    calculateNextGeneration g = Some g'
    /\ length g' = length g
    /\ rectangular n g'
    /\ (forall r c : nat, (r < length g)%nat -> (c < n)%nat ->
          let k := toroidalLiveNeighbours g (length g) n r c in
          cellAt g' (Z.of_nat r) (Z.of_nat c) = Some Alive
          <-> (cellAt g (Z.of_nat r) (Z.of_nat c) = Some Alive /\ (k = 2 \/ k = 3)%nat)
              \/ (cellAt g (Z.of_nat r) (Z.of_nat c) = Some Dead /\ k = 3%nat))
    /\ (-1, -1) ∈ neighbourOffsets
    /\ (0 + -1) `mod` Z.of_nat (length g) = Z.of_nat (length g) - 1
    /\ (0 + -1) `mod` Z.of_nat n = Z.of_nat n - 1
    /\ (cellAt g (Z.of_nat (length g) - 1) (Z.of_nat n - 1) = Some Alive ->
          (1 <= countLiveNeighbors g (length g) n 0 0)%nat).
Proof.
  intros Hrect Hne Hn.
  assert (0 < length g)%nat as Hrows by (destruct g; [done|simpl; lia]).
  destruct (calculateNextGeneration_shape n g Hrect) as (g' & Hnext & Hrect' & Hlen).
  exists g'. split; [done|]. split; [by apply Hlen|]. split; [done|].
  split; [|split; [|split; [|split]]].
  - intros r c Hr Hc k.
    destruct (calculateNextGeneration_cell n g r c Hrect Hn Hr Hc) as (g2 & Hnext2 & Hcell).
    rewrite Hnext in Hnext2. injection Hnext2 as <-.
    rewrite Hcell, (rectangular_cell n g r c Hrect Hr Hc). fold k.
    split.
    + intros [= Halive]. apply applyRules_alive in Halive.
      destruct Halive as [[-> Hk]|[-> Hk]]; [left|right]; done.
    + intros H. f_equal. apply applyRules_alive.
      destruct H as [[[= ->] Hk]|[[= ->] Hk]]; [left|right]; done.
  - set_solver.
  - by apply minus_one_mod.
  - by apply minus_one_mod.
  - intros Hcorner. rewrite countLiveNeighbors_toroidal by done.
    unfold toroidalLiveNeighbours, neighbourOffsets.
    rewrite length_filter_cons. cbn [fst snd Z.of_nat].
    unfold indicator at 1. rewrite decide_True; [lia|].
    by rewrite !minus_one_mod.
Qed.

Lemma calculateNextGeneration_life_witness :
  exists g',
    calculateNextGeneration
      [Some [Alive; Dead; Dead; Dead]; Some [Dead; Dead; Dead; Dead];
       Some [Dead; Dead; Dead; Alive]] = Some g'
    /\ length g' = 3%nat.
Proof.
  destruct (calculateNextGeneration_life 4
              [Some [Alive; Dead; Dead; Dead]; Some [Dead; Dead; Dead; Dead];
               Some [Dead; Dead; Dead; Alive]]) as (g' & Hnext & Hlen & _).
  - repeat constructor; eexists; split; reflexivity.
  - discriminate.
  - lia.
  - exists g'. split; [exact Hnext|exact Hlen].
Defined.

(** C9.  For a grid with no rows, or whose row 0 has length 0 (or is
    missing), [calculateNextGeneration] returns the empty grid. *)
Theorem calculateNextGeneration_no_cells (g : Grid) :
  g = [] \/ (exists rest, g = Some [] :: rest) \/ (exists rest, g = None :: rest) ->
  calculateNextGeneration g = Some [].
Proof.
  intros [->|[[rest ->]|[rest ->]]]; apply calculateNextGeneration_empty; simpl.
  - by left.
  - by right.
  - by right.
Qed.

Lemma calculateNextGeneration_no_cells_witness :
  calculateNextGeneration [Some []; Some [Alive; Alive]; Some [Alive]] = Some [].
Proof.
  apply calculateNextGeneration_no_cells. right; left. eexists. reflexivity.
Defined.

(** ** The session *)

Lemma stopSimulation_running (w : World) (id : nat) (delay : Z) :
  status (gameState w) = running ->
  timerId (gameState w) = Some id -> intervals w = [(id, delay)] ->
  status (gameState (stopSimulation w)) = paused
  /\ timerId (gameState (stopSimulation w)) = None
  /\ intervals (stopSimulation w) = []
  /\ nextTimerId (stopSimulation w) = nextTimerId w
  /\ sameBoard w (stopSimulation w).
Proof.
  unfold stopSimulation, sameBoard. intros Hs Hid Hint.
  rewrite decide_False by (intros H; by apply H).
  simpl. rewrite Hid. simpl. rewrite Hint.
  rewrite filter_cons_False by (simpl; tauto).
  done.
Qed.

Lemma stopSimulation_not_running (w : World) :
  status (gameState w) <> running -> stopSimulation w = w.
Proof. intros Hs. unfold stopSimulation. by rewrite decide_True. Qed.

(** After [stopSimulation] no timer is registered, whatever the status was,
    and a session that was running is paused. *)
Lemma stopSimulation_stops (w : World) :
  timersConsistent w ->
  status (gameState (stopSimulation w)) <> running
  /\ (status (gameState w) = running -> status (gameState (stopSimulation w)) = paused)
  /\ (status (gameState w) <> running ->
        status (gameState (stopSimulation w)) = status (gameState w))
  /\ timerId (gameState (stopSimulation w)) = None
  /\ intervals (stopSimulation w) = []
  /\ sameBoard w (stopSimulation w).
Proof.
  intros Hc. destruct (decide (status (gameState w) = running)) as [Hs|Hs].
  - unfold timersConsistent in Hc. rewrite Hs in Hc. destruct Hc as (id & Hid & Hint).
    destruct (stopSimulation_running w id _ Hs Hid Hint) as (Hp & Ht & Hi & _ & Hb).
    rewrite Hp. done.
  - rewrite stopSimulation_not_running by done.
    unfold timersConsistent in Hc.
    destruct (status (gameState w)); try done; destruct Hc; done.
Qed.

Lemma startSimulation_not_running (w : World) :
  timersConsistent w -> status (gameState w) <> running ->
  status (gameState (startSimulation w)) = running
  /\ timersConsistent (startSimulation w)
  /\ sameBoard w (startSimulation w).
Proof.
  unfold timersConsistent, startSimulation, sameBoard.
  intros Hc Hs. rewrite decide_False by done.
  assert (timerId (gameState w) = None /\ intervals w = []) as [Ht Hi].
  { destruct (status (gameState w)); done. }
  simpl. rewrite Ht. simpl. rewrite Hi. simpl.
  split; [done|]. split; [|done]. by eexists.
Qed.

Lemma startSimulation_running (w : World) :
  status (gameState w) = running -> startSimulation w = w.
Proof. intros Hs. unfold startSimulation. by rewrite decide_True. Qed.

Lemma stepGeneration_Some (w w' : World) :
  stepGeneration w = Some w' ->
  exists g',
    calculateNextGeneration (grid (gameState w)) = Some g'
    /\ w' = withGameState w
              (setGeneration (S (generation (gameState w))) (setGrid g' (gameState w))).
Proof.
  unfold stepGeneration. intros H.
  destruct (calculateNextGeneration (grid (gameState w))) as [g'|]; [|done].
  simpl in H. injection H as <-. by exists g'.
Qed.

Lemma stepGeneration_wellTyped (w : World) :
  wellTyped (grid (gameState w)) ->
  exists g',
    calculateNextGeneration (grid (gameState w)) = Some g' /\ wellTyped g'
    /\ stepGeneration w
       = Some (withGameState w
                 (setGeneration (S (generation (gameState w))) (setGrid g' (gameState w)))).
Proof.
  intros Hwt. destruct (calculateNextGeneration_total _ Hwt) as (g' & Hnext & Hwt').
  exists g'. split; [done|]. split; [done|].
  unfold stepGeneration. rewrite Hnext. done.
Qed.

Lemma createEmptyGrid_shape (nr nc : nat) :
  length (createEmptyGrid nr nc) = nr /\ rectangular nc (createEmptyGrid nr nc).
Proof.
  unfold createEmptyGrid. split; [apply length_replicate|].
  apply Forall_replicate. eexists. split; [done|]. apply length_replicate.
Qed.

Lemma createRandomGrid_shape (below : nat -> bool) (drawn nr nc : nat) :
  length (createRandomGrid below drawn nr nc) = nr
  /\ rectangular nc (createRandomGrid below drawn nr nc).
Proof.
  unfold createRandomGrid. split; [by rewrite length_imap, length_replicate|].
  unfold rectangular. rewrite Forall_lookup. intros i slot Hslot.
  rewrite list_lookup_imap in Hslot.
  destruct (replicate nr () !! i); [|done]. injection Hslot as <-.
  eexists. split; [done|]. by rewrite length_imap, length_replicate.
Qed.

Lemma boardShaped_step (w : World) (g' : Grid) :
  boardShaped w -> calculateNextGeneration (grid (gameState w)) = Some g' ->
  length g' = numRows (gameState w) /\ rectangular (numCols (gameState w)) g'.
Proof.
  intros (Hnr & Hnc & Hlen & Hrect) Hnext.
  destruct (calculateNextGeneration_shape _ _ Hrect) as (g2 & Hnext2 & Hrect2 & Hlen2).
  rewrite Hnext in Hnext2. injection Hnext2 as <-.
  split; [|done]. rewrite Hlen2; [done| |].
  - intros Hnil. rewrite Hnil, Hnr in Hlen. done.
  - rewrite Hnc. simpl. lia.
Qed.

Lemma boardShaped_setCellState (w : World) (row col : Z) (s : option CellState) :
  boardShaped w ->
  length (value (setCellState (grid (gameState w)) row col s)) = numRows (gameState w)
  /\ rectangular (numCols (gameState w))
       (value (setCellState (grid (gameState w)) row col s)).
Proof.
  intros (Hnr & Hnc & Hlen & Hrect).
  split; [by rewrite setCellState_length|].
  destruct (decide (inBounds (grid (gameState w)) row col)) as [Hin|Hout].
  - rewrite <- (rectangular_expected _ _ Hrect) at 1.
    + by apply setCellState_rectangular.
    + intros Hnil. rewrite Hnil, Hnr in Hlen. done.
  - by rewrite setCellState_outside.
Qed.

Lemma boardShaped_loadPattern (nr nc : nat) (p : Pattern) (sr sc : Z) :
  (0 < nr)%nat ->
  length (loadPattern (createEmptyGrid nr nc) p sr sc) = nr
  /\ rectangular nc (loadPattern (createEmptyGrid nr nc) p sr sc).
Proof.
  intros Hnr. destruct (createEmptyGrid_shape nr nc) as [Hlen Hrect].
  split; [by rewrite loadPattern_length|].
  rewrite <- (rectangular_expected _ _ Hrect) at 1.
  - apply loadPattern_rectangular.
  - intros Hnil. rewrite Hnil in Hlen. simpl in Hlen. lia.
Qed.

Lemma randomizeGrid_replaces (below : nat -> bool) (w : World) :
  timersConsistent w ->
  replacedBy (createRandomGrid below (randomDrawn w) (numRows (gameState w))
                (numCols (gameState w)))
             w (randomizeGrid below w).
Proof.
  intros Hc.
  destruct (stopSimulation_stops w Hc)
    as (_ & _ & _ & Ht & Hi & _ & _ & Hnr & Hnc & Hsi & Hrd).
  unfold replacedBy, randomizeGrid. simpl. rewrite Hnr, Hnc, Hrd. done.
Qed.

Lemma clearGrid_replaces (w : World) :
  timersConsistent w ->
  replacedBy (createEmptyGrid (numRows (gameState w)) (numCols (gameState w)))
             w (clearGrid w).
Proof.
  intros Hc.
  destruct (stopSimulation_stops w Hc)
    as (_ & _ & _ & Ht & Hi & _ & _ & Hnr & Hnc & Hsi & Hrd).
  unfold replacedBy, clearGrid. simpl. rewrite Hnr, Hnc. done.
Qed.

Lemma handleLoadPattern_replaces (p : Pattern) (w : World) :
  timersConsistent w ->
  replacedBy (loadPattern
                (createEmptyGrid (numRows (gameState w)) (numCols (gameState w))) p
                (centredStart (numRows (gameState w)) (height p))
                (centredStart (numCols (gameState w)) (width p)))
             w (handleLoadPattern p w).
Proof.
  intros Hc.
  destruct (stopSimulation_stops w Hc)
    as (_ & _ & _ & Ht & Hi & _ & _ & Hnr & Hnc & Hsi & Hrd).
  unfold replacedBy, handleLoadPattern. simpl. rewrite Hnr, Hnc. done.
Qed.

Lemma replacedBy_invariant (g : Grid) (w w' : World) :
  boardShaped w -> replacedBy g w w' ->
  length g = numRows (gameState w) -> rectangular (numCols (gameState w)) g ->
  sessionInvariant w'.
Proof.
  intros (Hnr & Hnc & _ & _) (Hs & _ & Hg & Ht & Hi & Hnr' & Hnc' & _) Hlen Hrect.
  unfold sessionInvariant, timersConsistent, boardShaped.
  rewrite Hs, Hg, Hnr', Hnc'. done.
Qed.

(** C8.  In a session whose timer is as the status says, each of the
    commands randomize, clear and load-pattern leaves the status [paused]
    with no timer registered (a running session is paused by the
    [stopSimulation] that each of them starts with), the generation
    counter at 0, and a new grid in place of the old one: a random grid, an
    empty grid, or the pattern stamped, centred, on an empty grid.  This
    holds whether the session was running or paused. *)
Theorem grid_replacing_commands (below : nat -> bool) (p : Pattern) (w : World) :
  timersConsistent w ->
  let gs := gameState w in
  (status gs = running -> status (gameState (stopSimulation w)) = paused)
  /\ intervals (stopSimulation w) = []
  /\ replacedBy (createRandomGrid below (randomDrawn w) (numRows gs) (numCols gs))
                w (randomizeGrid below w)
  /\ replacedBy (createEmptyGrid (numRows gs) (numCols gs)) w (clearGrid w)
  /\ replacedBy (loadPattern (createEmptyGrid (numRows gs) (numCols gs)) p
                   (centredStart (numRows gs) (height p))
                   (centredStart (numCols gs) (width p)))
                w (handleLoadPattern p w).
Proof.
  intros Hc gs.
  destruct (stopSimulation_stops w Hc) as (_ & Hp & _ & _ & Hi & _).
  split; [done|]. split; [done|].
  split; [by apply randomizeGrid_replaces|].
  split; [by apply clearGrid_replaces|by apply handleLoadPattern_replaces].
Qed.

Lemma grid_replacing_commands_witness :
  replacedBy [Some [Dead; Dead]; Some [Dead; Dead]] runningWorld (clearGrid runningWorld).
Proof.
  assert (timersConsistent runningWorld) as Hc.
  { unfold timersConsistent. simpl. exists 3%nat. split; reflexivity. }
  pose proof (grid_replacing_commands (fun _ => false) (mkPattern "none" [] 0 0)
                runningWorld Hc) as H.
  exact (proj1 (proj2 (proj2 (proj2 H)))).
Defined.

Lemma stopSimulation_sameBoard (w : World) : sameBoard w (stopSimulation w).
Proof.
  unfold sameBoard, stopSimulation. destruct (decide _); [done|]. simpl.
  destruct (timerId (gameState w)); done.
Qed.

Lemma startSimulation_sameBoard (w : World) : sameBoard w (startSimulation w).
Proof.
  unfold sameBoard, startSimulation. destruct (decide _); [done|]. simpl.
  destruct (timerId (gameState w)); done.
Qed.

Lemma stopSimulation_status (w : World) :
  status (gameState w) = running -> status (gameState (stopSimulation w)) = paused.
Proof.
  intros Hs. unfold stopSimulation.
  rewrite decide_False by (intros H; by apply H). simpl.
  destruct (timerId (gameState w)); done.
Qed.

Lemma startSimulation_status (w : World) :
  status (gameState (startSimulation w)) = running.
Proof.
  unfold startSimulation. destruct (decide _); [done|]. simpl.
  destruct (timerId (gameState w)); done.
Qed.

Lemma handleSpeedChange_status (interval : Z) (w : World) :
  status (gameState (handleSpeedChange interval w)) = status (gameState w).
Proof.
  unfold handleSpeedChange. simpl. destruct (decide _) as [Hs|Hs]; [|done].
  by rewrite startSimulation_status.
Qed.

(** [handleSpeedChange] stores the interval that it is given. *)
Lemma handleSpeedChange_interval (interval : Z) (w : World) :
  simulationInterval (gameState (handleSpeedChange interval w)) = interval.
Proof.
  unfold handleSpeedChange. simpl. destruct (decide _) as [Hs|Hs]; [|done].
  destruct (startSimulation_sameBoard
              (stopSimulation (withGameState w (setSimulationInterval interval (gameState w)))))
    as (_ & _ & _ & _ & -> & _).
  destruct (stopSimulation_sameBoard
              (withGameState w (setSimulationInterval interval (gameState w))))
    as (_ & _ & _ & _ & -> & _).
  done.
Qed.

(** C7, as the code has it.  [handleSpeedChange] stores the interval that
    it is given, whatever it is.  The listener of the speed slider passes
    [max - value + min]; for a slider value between the configured minimum
    (50) and maximum (1000), the range that the slider declares, the stored
    interval is a positive integer between the same bounds. *)
Theorem speed_within_bounds_from_slider (sliderValue interval : Z) (w : World) :
  minSimulationIntervalMs CONFIG <= sliderValue <= maxSimulationIntervalMs CONFIG ->
  simulationInterval (gameState (handleSpeedChange interval w)) = interval
  /\ simulationInterval (gameState (onSliderInput sliderValue w))
     = maxSimulationIntervalMs CONFIG - sliderValue + minSimulationIntervalMs CONFIG
  /\ 50 <= simulationInterval (gameState (onSliderInput sliderValue w)) <= 1000
  /\ 0 < simulationInterval (gameState (onSliderInput sliderValue w)).
Proof.
  intros Hv. unfold onSliderInput. rewrite !handleSpeedChange_interval.
  simpl in *. lia.
Qed.

Lemma speed_within_bounds_from_slider_witness :
  simulationInterval (gameState (onSliderInput 1000 runningWorld)) = 50
  /\ simulationInterval (gameState (handleSpeedChange 5 runningWorld)) = 5.
Proof.
  destruct (speed_within_bounds_from_slider 1000 5 runningWorld) as (H5 & H50 & _).
  - simpl. lia.
  - split; [exact H50|exact H5].
Defined.

(** C7, as the claim states it, fails: an interval below the configured
    minimum is stored as it is. *)
Lemma handleSpeedChange_does_not_clamp :
  ~ (forall (interval : Z) (w : World),
       minSimulationIntervalMs CONFIG
       <= simulationInterval (gameState (handleSpeedChange interval w))
       <= maxSimulationIntervalMs CONFIG).
Proof.
  intros H. specialize (H 5 pausedWorld).
  rewrite handleSpeedChange_interval in H. simpl in H. lia.
Qed.

(** *** The step command *)

Lemma onStepClick_not_paused (w : World) :
  status (gameState w) <> paused -> onStepClick w = Some w.
Proof. intros Hs. unfold onStepClick. by rewrite decide_False. Qed.

Lemma stepGeneration_status (w w' : World) :
  stepGeneration w = Some w' -> status (gameState w') = status (gameState w).
Proof. intros H. destruct (stepGeneration_Some w w' H) as (g' & _ & ->). done. Qed.

Lemma dispatch_keeps_running (below : nat -> bool) (w : World) (e : Event) :
  status (gameState w) = running -> keepsRunning e = true ->
  status (gameState (dispatch below w e)) = running.
Proof.
  intros Hs He. unfold dispatch. destruct e; try done; simpl.
  - by rewrite startSimulation_running.
  - rewrite onStepClick_not_paused; [done|]. by rewrite Hs.
  - unfold onSliderInput. by rewrite handleSpeedChange_status.
  - unfold handleCellToggle. rewrite decide_False; [done|]. by rewrite Hs.
  - unfold onTimer. destruct (decide _); [|done].
    destruct (stepGeneration w) as [w'|] eqn:Hstep; [|done]. simpl.
    by rewrite (stepGeneration_status w w').
Qed.

Lemma run_without_step_clicks (below : nat -> bool) (es : list Event) :
  forall w : World,
  status (gameState w) = running ->
  Forall (fun e => keepsRunning e = true) es ->
  run below es w = run below (filter (fun e => isStepClick e = false) es) w.
Proof.
  unfold run. induction es as [|e es IH]; intros w Hs Hes; [done|].
  apply Forall_cons in Hes as [He Hes]. simpl.
  destruct (isStepClick e) eqn:Hstep.
  - rewrite filter_cons_False by (rewrite Hstep; done).
    destruct e; try done. unfold dispatch at 2. simpl.
    rewrite onStepClick_not_paused by (by rewrite Hs). simpl. by apply IH.
  - rewrite filter_cons_True by done. simpl.
    apply IH; [|done]. by apply dispatch_keeps_running.
Qed.


(** *** Every session that the page can reach *)

Lemma boardShaped_sameBoard (w w' : World) :
  sameBoard w w' -> boardShaped w -> boardShaped w'.
Proof.
  intros (Hg & _ & Hnr & Hnc & _) H. unfold boardShaped.
  by rewrite Hg, Hnr, Hnc.
Qed.

Lemma startSimulation_invariant (w : World) :
  sessionInvariant w -> sessionInvariant (startSimulation w).
Proof.
  intros (Hc & Hs & Hb).
  destruct (decide (status (gameState w) = running)) as [Hrun|Hrun].
  - by rewrite startSimulation_running.
  - destruct (startSimulation_not_running w Hc Hrun) as (Hs' & Hc' & Hsame).
    split; [done|]. split; [by rewrite Hs'|]. by apply (boardShaped_sameBoard w).
Qed.

Lemma stopSimulation_invariant (w : World) :
  sessionInvariant w -> sessionInvariant (stopSimulation w).
Proof.
  intros (Hc & Hs & Hb).
  destruct (stopSimulation_stops w Hc) as (Hnot & Hrun & Hkeep & Ht & Hi & Hsame).
  split; [|split].
  - unfold timersConsistent. rewrite Ht, Hi.
    destruct (status (gameState (stopSimulation w))); done.
  - destruct (decide (status (gameState w) = running)) as [H|H].
    + by rewrite Hrun.
    + by rewrite Hkeep.
  - by apply (boardShaped_sameBoard w).
Qed.

Lemma stepGeneration_invariant (w w' : World) :
  sessionInvariant w -> stepGeneration w = Some w' -> sessionInvariant w'.
Proof.
  intros (Hc & Hs & Hb) Hstep.
  destruct (stepGeneration_Some w w' Hstep) as (g' & Hnext & ->).
  destruct (boardShaped_step w g' Hb Hnext) as [Hlen Hrect].
  destruct Hb as (Hnr & Hnc & _ & _).
  split; [done|]. split; done.
Qed.

Lemma handleSpeedChange_invariant (interval : Z) (w : World) :
  sessionInvariant w -> sessionInvariant (handleSpeedChange interval w).
Proof.
  intros (Hc & Hs & Hb). unfold handleSpeedChange.
  set (w1 := withGameState w (setSimulationInterval interval (gameState w))).
  assert (boardShaped w1) as Hb1 by done.
  simpl. destruct (decide (status (gameState w) = running)) as [Hrun|Hrun].
  - unfold timersConsistent in Hc. rewrite Hrun in Hc. destruct Hc as (id & Hid & Hint).
    destruct (stopSimulation_running w1 id _ Hrun Hid Hint) as (Hp & Ht & Hi & _ & Hsame).
    apply startSimulation_invariant. split; [|split].
    + unfold timersConsistent. by rewrite Hp, Ht, Hi.
    + by rewrite Hp.
    + by apply (boardShaped_sameBoard w1).
  - split; [|done]. unfold timersConsistent in *. simpl.
    destruct (status (gameState w)); done.
Qed.

Lemma handleCellToggle_invariant (row col : Z) (s : option CellState) (w : World) :
  sessionInvariant w -> sessionInvariant (handleCellToggle row col s w).
Proof.
  intros (Hc & Hs & Hb). unfold handleCellToggle.
  destruct (decide _) as [Hp|Hp]; [|done].
  destruct (boardShaped_setCellState w row col s Hb) as [Hlen Hrect].
  destruct Hb as (Hnr & Hnc & _ & _).
  split; [done|]. split; done.
Qed.

Lemma dispatch_invariant (below : nat -> bool) (w : World) (e : Event) :
  sessionInvariant w -> sessionInvariant (dispatch below w e).
Proof.
  intros Hinv. pose proof Hinv as (Hc & Hs & Hb).
  pose proof Hb as (Hnr & Hnc & Hlen & Hrect).
  unfold dispatch. destruct e; simpl.
  - by apply startSimulation_invariant.
  - by apply stopSimulation_invariant.
  - unfold onStepClick. destruct (decide _); [|done].
    destruct (stepGeneration w) as [w'|] eqn:Hstep; [|done].
    by apply (stepGeneration_invariant w).
  - eapply replacedBy_invariant;
      [done|by apply randomizeGrid_replaces|apply createRandomGrid_shape..].
  - eapply replacedBy_invariant;
      [done|by apply clearGrid_replaces|apply createEmptyGrid_shape..].
  - by apply handleSpeedChange_invariant.
  - by apply handleCellToggle_invariant.
  - eapply replacedBy_invariant;
      [done|by apply handleLoadPattern_replaces|apply boardShaped_loadPattern..];
      rewrite Hnr; simpl; lia.
  - unfold onTimer. destruct (decide _); [|done].
    destruct (stepGeneration w) as [w'|] eqn:Hstep; [|done].
    by apply (stepGeneration_invariant w).
Qed.

Lemma initialWorld_invariant (below : nat -> bool) :
  sessionInvariant (initialWorld below).
Proof.
  split; [done|]. split; [done|].
  unfold boardShaped, initialWorld, createInitialGameState.
  cbn [gameState grid numRows numCols].
  split; [done|]. split; [done|]. apply createRandomGrid_shape.
Qed.

(** In every session that the page can reach the timer is as the status
    says, the status is not [stopped], and the grid has the rows and
    columns of the configuration; so no listener throws. *)
Lemma reachable_invariant (below : nat -> bool) (w : World) :
  reachable below w -> sessionInvariant w.
Proof.
  induction 1 as [|w e _ IH].
  - apply initialWorld_invariant.
  - by apply dispatch_invariant.
Qed.

Lemma reachable_never_throws (below : nat -> bool) (w : World) (e : Event) :
  reachable below w -> is_Some (handle below e w).
Proof.
  intros Hreach.
  destruct (reachable_invariant below w Hreach) as (_ & _ & _ & _ & _ & Hrect).
  pose proof (stepGeneration_wellTyped w (rectangular_wellTyped _ _ Hrect))
    as (g' & _ & _ & Hstep).
  destruct e; simpl; try by eexists.
  - unfold onStepClick. destruct (decide _); by eexists.
  - unfold onTimer. destruct (decide _); by eexists.
Qed.

(** C6.  The listener of the step button acts only while the status is
    [paused].  With any other status, [running] among them, it leaves the
    whole session as it is, so that a run of the session in which the step
    button is clicked any number of times ends in the state that the same
    run without the clicks ends in: the generation counter and the grid
    advance by the timer alone.  While [paused], and on a grid whose rows
    are all arrays, one click replaces the grid by its next generation and
    adds exactly 1 to the generation counter; the grid of every session
    that the page can reach is such a grid. *)
Theorem step_only_while_paused (below : nat -> bool) (w : World) :
  (status (gameState w) <> paused -> onStepClick w = Some w)
  /\ (status (gameState w) = running ->
      dispatch below w ClickStep = w
      /\ forall es, Forall (fun e => keepsRunning e = true) es ->
           run below es w = run below (filter (fun e => isStepClick e = false) es) w)
  /\ (status (gameState w) = paused -> wellTyped (grid (gameState w)) ->
      exists g' w',
        calculateNextGeneration (grid (gameState w)) = Some g'
        /\ onStepClick w = Some w'
        /\ dispatch below w ClickStep = w'
        /\ grid (gameState w') = g'
        /\ generation (gameState w') = S (generation (gameState w))
        /\ status (gameState w') = paused)
  /\ (reachable below w -> status (gameState w) = paused ->
      generation (gameState (dispatch below w ClickStep))
      = S (generation (gameState w))).
Proof.
  assert (status (gameState w) = paused -> wellTyped (grid (gameState w)) ->
          exists g',
            calculateNextGeneration (grid (gameState w)) = Some g'
            /\ onStepClick w
               = Some (withGameState w
                         (setGeneration (S (generation (gameState w)))
                            (setGrid g' (gameState w))))) as Hpaused.
  { intros Hs Hwt.
    destruct (stepGeneration_wellTyped w Hwt) as (g' & Hnext & _ & Hstep).
    exists g'. split; [done|].
    unfold onStepClick. by rewrite decide_True. }
  split; [apply onStepClick_not_paused|]. split; [|split].
  - intros Hs. split.
    + unfold dispatch. simpl. rewrite onStepClick_not_paused; [done|]. by rewrite Hs.
    + intros es Hes. by apply run_without_step_clicks.
  - intros Hs Hwt. destruct (Hpaused Hs Hwt) as (g' & Hnext & Hclick).
    exists g'. eexists. split; [done|]. split; [done|].
    unfold dispatch. simpl. rewrite Hclick. simpl. done.
  - intros Hreach Hs.
    destruct (reachable_invariant below w Hreach) as (_ & _ & _ & _ & _ & Hrect).
    destruct (Hpaused Hs (rectangular_wellTyped _ _ Hrect)) as (g' & _ & Hclick).
    unfold dispatch. simpl. rewrite Hclick. done.
Qed.

Lemma step_only_while_paused_witness :
  onStepClick runningWorld = Some runningWorld
  /\ run (fun _ => false) [ClickStep; TimerFires 3; ClickStep] runningWorld
     = run (fun _ => false) [TimerFires 3] runningWorld.
Proof.
  destruct (step_only_while_paused (fun _ => false) runningWorld) as (Hnot & Hrun & _ & _).
  split.
  - apply Hnot. discriminate.
  - destruct (Hrun eq_refl) as [_ Hes].
    apply (Hes [ClickStep; TimerFires 3%nat; ClickStep]).
    repeat constructor.
Defined.

(** ** Checks on concrete grids *)

Example all_dead_stays_dead :
  calculateNextGeneration (createEmptyGrid 3 3) = Some (createEmptyGrid 3 3).
Proof. reflexivity. Qed.

Example lonely_cell_dies :
  calculateNextGeneration
    [Some [Dead; Dead; Dead]; Some [Dead; Alive; Dead]; Some [Dead; Dead; Dead]]
  = Some (createEmptyGrid 3 3).
Proof. reflexivity. Qed.

Example blinker_turns :
  calculateNextGeneration
    [Some [Dead; Alive; Dead; Dead; Dead]; Some [Dead; Alive; Dead; Dead; Dead];
     Some [Dead; Alive; Dead; Dead; Dead]; Some [Dead; Dead; Dead; Dead; Dead];
     Some [Dead; Dead; Dead; Dead; Dead]]
  = Some
    [Some [Dead; Dead; Dead; Dead; Dead]; Some [Alive; Alive; Alive; Dead; Dead];
     Some [Dead; Dead; Dead; Dead; Dead]; Some [Dead; Dead; Dead; Dead; Dead];
     Some [Dead; Dead; Dead; Dead; Dead]].
Proof. reflexivity. Qed.

Example corner_wraps :
  countLiveNeighbors
    [Some [Alive; Dead; Dead; Dead]; Some [Dead; Dead; Dead; Dead];
     Some [Dead; Dead; Dead; Alive]] 3 4 0 0 = 1%nat.
Proof. reflexivity. Qed.

Example glider_moves_by_one :
  generations 4 (loadPattern (createEmptyGrid 20 20) glider 0 0)
  = Some (loadPattern (createEmptyGrid 20 20) glider 1 1).
Proof. vm_compute. reflexivity. Qed.

Example missing_row_throws :
  calculateNextGeneration [Some [Alive; Dead]; None] = None.
Proof. reflexivity. Qed.

Example ragged_grid_is_repaired :
  loadPattern [Some [Dead; Dead; Dead]; Some [Alive]; None; Some [Alive; Alive; Alive; Alive]]
              glider 1 0
  = [Some [Dead; Dead; Dead]; Some [Alive; Alive; Dead]; Some [Dead; Dead; Alive];
     Some [Alive; Alive; Alive]].
Proof. reflexivity. Qed.

Example paused_step_counts_one :
  generation (gameState (dispatch (fun _ => false) pausedWorld ClickStep)) = 8%nat
  /\ generation (gameState (dispatch (fun _ => false) runningWorld ClickStep)) = 7%nat
  /\ generation (gameState (dispatch (fun _ => false) runningWorld (TimerFires 3))) = 8%nat
  /\ generation (gameState (dispatch (fun _ => false) runningWorld (TimerFires 2))) = 7%nat.
Proof. repeat split; reflexivity. Qed.

(** * Further properties of the code *)

(** ** Edits of a grid of any shape *)

Lemma setCellState_expected (g : Grid) (row col : Z) (s : option CellState) :
  expectedNumCols (value (setCellState g row col s)) = expectedNumCols g.
Proof.
  destruct (decide (inBounds g row col)) as [Hin|Hout].
  - apply rectangular_expected; [by apply setCellState_rectangular|].
    intros Hnil. pose proof (setCellState_length g row col s) as Hlen.
    rewrite Hnil in Hlen. destruct Hin as [Hr _]. simpl in Hlen. lia.
  - by rewrite setCellState_outside.
Qed.

Lemma setCellState_inBounds (g : Grid) (row col : Z) (s : option CellState) (r c : Z) :
  inBounds (value (setCellState g row col s)) r c <-> inBounds g r c.
Proof. unfold inBounds. by rewrite setCellState_length, setCellState_expected. Qed.

Lemma setCellState_prior (g : Grid) (row col : Z) (s : option CellState) (r c : nat) :
  inBounds g row col -> (r < length g)%nat -> (c < expectedNumCols g)%nat ->
  prior (value (setCellState g row col s)) r c
  = if decide (Z.of_nat r = row /\ Z.of_nat c = col)
    then written s (prior g r c) else prior g r c.
Proof.
  intros Hin Hr Hc. unfold prior at 1. by rewrite setCellState_cell.
Qed.



(** X2.  Setting a cell to an explicit state twice is the same as setting
    it once, for a grid of any shape and a position inside or outside the
    bounds. *)
Theorem setCellState_explicit_idempotent (g : Grid) (row col : Z) (s : CellState) :
  value (setCellState (value (setCellState g row col (Some s))) row col (Some s))
  = value (setCellState g row col (Some s)).
Proof.
  destruct (decide (inBounds g row col)) as [Hin|Hout].
  - set (g1 := value (setCellState g row col (Some s))).
    assert (inBounds g1 row col) as Hin1 by by apply setCellState_inBounds.
    assert (rectangular (expectedNumCols g) g1) as Hrect1
      by by apply setCellState_rectangular.
    assert (length g1 = length g) as Hlen1 by apply setCellState_length.
    assert (expectedNumCols g1 = expectedNumCols g) as He1
      by apply setCellState_expected.
    apply (grid_ext (expectedNumCols g)).
    + rewrite <- He1. by apply setCellState_rectangular.
    + done.
    + apply setCellState_length.
    + intros r c Hr Hc. rewrite setCellState_length in Hr.
      rewrite setCellState_cell by (done || lia).
      rewrite (rectangular_cell _ g1 r c Hrect1) by done.
      assert (prior g1 r c
              = if decide (Z.of_nat r = row /\ Z.of_nat c = col)
                then written (Some s) (prior g r c) else prior g r c) as ->
        by (apply setCellState_prior; done || lia).
      by destruct (decide _).
  - rewrite (setCellState_outside g) by done. simpl.
    by rewrite setCellState_outside.
Qed.

(** X3.  Two edits at different positions inside the bounds give the same
    grid in either order, for a grid of any shape and any new states
    (explicit or toggling). *)
Theorem setCellState_commute (g : Grid) (row1 col1 row2 col2 : Z)
    (s1 s2 : option CellState) :
  inBounds g row1 col1 -> inBounds g row2 col2 -> (row1, col1) <> (row2, col2) ->
  value (setCellState (value (setCellState g row1 col1 s1)) row2 col2 s2)
  = value (setCellState (value (setCellState g row2 col2 s2)) row1 col1 s1).
Proof.
  intros Hin1 Hin2 Hne.
  assert (forall ra ca rb cb sa sb, inBounds g ra ca -> inBounds g rb cb ->
            let ga := value (setCellState g ra ca sa) in
            rectangular (expectedNumCols g) (value (setCellState ga rb cb sb))
            /\ length (value (setCellState ga rb cb sb)) = length g
            /\ forall r c : nat, (r < length g)%nat -> (c < expectedNumCols g)%nat ->
                 cellAt (value (setCellState ga rb cb sb)) (Z.of_nat r) (Z.of_nat c)
                 = Some (let x := if decide (Z.of_nat r = ra /\ Z.of_nat c = ca)
                                  then written sa (prior g r c) else prior g r c in
                         if decide (Z.of_nat r = rb /\ Z.of_nat c = cb)
                         then written sb x else x)) as Htwo.
  { intros ra ca rb cb sa sb Ha Hb ga.
    assert (inBounds ga rb cb) as Hb' by by apply setCellState_inBounds.
    split; [|split].
    - rewrite <- (setCellState_expected g ra ca sa). by apply setCellState_rectangular.
    - rewrite setCellState_length. apply setCellState_length.
    - intros r c Hr Hc.
      assert (length ga = length g) as Hlena by apply setCellState_length.
      assert (expectedNumCols ga = expectedNumCols g) as Hea
        by apply setCellState_expected.
      rewrite setCellState_cell by (done || lia).
      subst ga. by rewrite setCellState_prior. }
  destruct (Htwo row1 col1 row2 col2 s1 s2 Hin1 Hin2) as (Hrect12 & Hlen12 & Hcell12).
  destruct (Htwo row2 col2 row1 col1 s2 s1 Hin2 Hin1) as (Hrect21 & Hlen21 & Hcell21).
  apply (grid_ext (expectedNumCols g)); [done|done|congruence|].
  intros r c Hr Hc. rewrite Hlen12 in Hr.
  rewrite Hcell12, Hcell21 by done. f_equal. simpl.
  destruct (decide (Z.of_nat r = row1 /\ Z.of_nat c = col1)) as [[E1 E2]|N1];
    destruct (decide (Z.of_nat r = row2 /\ Z.of_nat c = col2)) as [[E3 E4]|N2];
    try done.
  exfalso. apply Hne. congruence.
Qed.

Lemma setCellState_commute_witness :
  value (setCellState (value (setCellState [Some [Dead; Alive]; Some [Alive]] 0 0 None))
           1 1 (Some Alive))
  = value (setCellState (value (setCellState [Some [Dead; Alive]; Some [Alive]]
                                  1 1 (Some Alive)))
             0 0 None).
Proof.
  apply (setCellState_commute [Some [Dead; Alive]; Some [Alive]] 0 0 1 1 None (Some Alive)).
  - unfold inBounds, expectedNumCols. simpl. lia.
  - unfold inBounds, expectedNumCols. simpl. lia.
  - discriminate.
Defined.

(** ** Patterns stamped more than once *)

Lemma loadPattern_expected (g : Grid) (p : Pattern) (sr sc : Z) :
  expectedNumCols (loadPattern g p sr sc) = expectedNumCols g.
Proof.
  destruct g as [|slot g]; [done|].
  apply rectangular_expected; [apply loadPattern_rectangular|].
  intros Hnil. pose proof (loadPattern_length (slot :: g) p sr sc) as Hlen.
  by rewrite Hnil in Hlen.
Qed.

Lemma loadPattern_prior (g : Grid) (p : Pattern) (sr sc : Z) (r c : nat) :
  (r < length g)%nat -> (c < expectedNumCols g)%nat ->
  prior (loadPattern g p sr sc) r c
  = if decide ((Z.of_nat r, Z.of_nat c)
                 ∈ patternLiveCells (length g) (expectedNumCols g) p sr sc)
    then Alive else prior g r c.
Proof. intros Hr Hc. unfold prior at 1. by rewrite loadPattern_cell. Qed.

(** The cells of a grid stamped twice. *)
Lemma loadPattern_twice_cell (g : Grid) (p q : Pattern) (sr sc sr' sc' : Z) (r c : nat) :
  (r < length g)%nat -> (c < expectedNumCols g)%nat ->
  cellAt (loadPattern (loadPattern g p sr sc) q sr' sc') (Z.of_nat r) (Z.of_nat c)
  = Some (if decide ((Z.of_nat r, Z.of_nat c)
                       ∈ patternLiveCells (length g) (expectedNumCols g) q sr' sc')
          then Alive
          else if decide ((Z.of_nat r, Z.of_nat c)
                            ∈ patternLiveCells (length g) (expectedNumCols g) p sr sc)
               then Alive else prior g r c).
Proof.
  intros Hr Hc.
  rewrite loadPattern_cell by (by rewrite ?loadPattern_length, ?loadPattern_expected).
  rewrite loadPattern_length, loadPattern_expected, loadPattern_prior by done. done.
Qed.

Lemma loadPattern_twice_shape (g : Grid) (p q : Pattern) (sr sc sr' sc' : Z) :
  rectangular (expectedNumCols g) (loadPattern (loadPattern g p sr sc) q sr' sc')
  /\ length (loadPattern (loadPattern g p sr sc) q sr' sc') = length g.
Proof.
  split.
  - rewrite <- (loadPattern_expected g p sr sc). apply loadPattern_rectangular.
  - by rewrite !loadPattern_length.
Qed.

(** X4.  Stamping the same pattern at the same place twice gives the grid
    of the first stamp, for a grid of any shape; in particular the repair
    of the rows done again changes nothing. *)
Theorem loadPattern_idempotent (g : Grid) (p : Pattern) (startRow startCol : Z) :
  loadPattern (loadPattern g p startRow startCol) p startRow startCol
  = loadPattern g p startRow startCol.
Proof.
  destruct (loadPattern_twice_shape g p p startRow startCol startRow startCol)
    as [Hrect Hlen].
  apply (grid_ext (expectedNumCols g)).
  - done.
  - apply loadPattern_rectangular.
  - by rewrite Hlen, loadPattern_length.
  - intros r c Hr Hc. rewrite Hlen in Hr.
    rewrite loadPattern_twice_cell, loadPattern_cell by done.
    by destruct (decide _).
Qed.

(** X5.  Two patterns stamped one after the other give the same grid in
    either order, for a grid of any shape and any two start positions. *)
Theorem loadPattern_commute (g : Grid) (p q : Pattern) (sr sc sr' sc' : Z) :
  loadPattern (loadPattern g p sr sc) q sr' sc'
  = loadPattern (loadPattern g q sr' sc') p sr sc.
Proof.
  destruct (loadPattern_twice_shape g p q sr sc sr' sc') as [Hrect Hlen].
  destruct (loadPattern_twice_shape g q p sr' sc' sr sc) as [Hrect' Hlen'].
  apply (grid_ext (expectedNumCols g)); [done|done|congruence|].
  intros r c Hr Hc. rewrite Hlen in Hr.
  rewrite !loadPattern_twice_cell by done.
  by repeat destruct (decide _).
Qed.

(** X6.  On a rectangular grid, a pattern all of whose targets inside the
    bounds are alive already (a pattern with no offsets among them) leaves
    the grid as it is. *)
Theorem loadPattern_nothing_new (n : nat) (g : Grid) (p : Pattern)
    (startRow startCol : Z) :
  rectangular n g ->
  (forall offset, offset ∈ data p ->
     targetInside (length g) n startRow startCol offset ->
     cellAt g (startRow + offset.1) (startCol + offset.2) = Some Alive) ->
  loadPattern g p startRow startCol = g.
Proof.
  intros Hrect Halive. destruct (decide (g = [])) as [->|Hne]; [done|].
  pose proof (rectangular_expected n g Hrect Hne) as He.
  apply (grid_ext n).
  - rewrite <- He. apply loadPattern_rectangular.
  - done.
  - apply loadPattern_length.
  - intros r c Hr Hc. rewrite loadPattern_length in Hr.
    rewrite loadPattern_cell by (by rewrite ?He).
    rewrite (rectangular_cell n g r c Hrect Hr Hc).
    destruct (decide _) as [Hlive|_]; [|done].
    apply elem_of_patternLiveCells in Hlive as (offset & Ho & Hin & Hr' & Hc').
    rewrite He in Hin. specialize (Halive offset Ho Hin).
    rewrite <- Hr', <- Hc', (rectangular_cell n g r c Hrect Hr Hc) in Halive.
    done.
Qed.

Lemma loadPattern_nothing_new_witness :
  loadPattern [Some [Dead; Alive; Dead]; Some [Dead; Dead; Alive]; Some [Alive; Alive; Alive]]
              glider 0 0
  = [Some [Dead; Alive; Dead]; Some [Dead; Dead; Alive]; Some [Alive; Alive; Alive]].
Proof.
  apply (loadPattern_nothing_new 3).
  - repeat constructor; eexists; split; reflexivity.
  - intros offset Ho _. simpl in Ho.
    repeat (apply elem_of_cons in Ho as [->|Ho]; [reflexivity|]).
    by apply elem_of_nil in Ho.
Defined.

(** ** More on [calculateNextGeneration] *)

Lemma no_live_neighbours (g : Grid) (nr nc r c : nat) :
  (forall r' c' : Z, cellAt g r' c' <> Some Alive) ->
  toroidalLiveNeighbours g nr nc r c = 0%nat.
Proof.
  intros Hdead. unfold toroidalLiveNeighbours, neighbourOffsets.
  rewrite !length_filter_cons, filter_nil. unfold indicator.
  rewrite !decide_False by apply Hdead. done.
Qed.

(** X7.  A rectangular grid with at least one row and one column and no
    live cell is its own next generation. *)
Theorem calculateNextGeneration_no_life (n : nat) (g : Grid) :
  rectangular n g -> g <> [] -> (0 < n)%nat ->
  (forall r c : Z, cellAt g r c <> Some Alive) ->
  calculateNextGeneration g = Some g.
Proof.
  intros Hrect Hne Hn Hdead.
  destruct (calculateNextGeneration_shape n g Hrect) as (g' & Hnext & Hrect' & Hlen).
  rewrite Hnext. f_equal. apply (grid_ext n); [done|done|by apply Hlen|].
  intros r c Hr Hc. rewrite Hlen in Hr by done.
  destruct (calculateNextGeneration_cell n g r c Hrect Hn Hr Hc) as (g2 & Hnext2 & Hcell).
  rewrite Hnext in Hnext2. injection Hnext2 as <-.
  rewrite Hcell, no_live_neighbours by done.
  rewrite (rectangular_cell n g r c Hrect Hr Hc).
  pose proof (Hdead (Z.of_nat r) (Z.of_nat c)) as Hrc.
  rewrite (rectangular_cell n g r c Hrect Hr Hc) in Hrc.
  destruct (prior g r c); [done|]. by destruct Hrc.
Qed.

Lemma calculateNextGeneration_no_life_witness :
  calculateNextGeneration (createEmptyGrid 4 6) = Some (createEmptyGrid 4 6).
Proof.
  apply (calculateNextGeneration_no_life 6).
  - apply createEmptyGrid_shape.
  - discriminate.
  - lia.
  - intros r c. unfold cellAt.
    destruct ((r <? 0) || (c <? 0)); [discriminate|].
    destruct (createEmptyGrid 4 6 !! Z.to_nat r) as [slot|] eqn:Hslot; [|discriminate].
    apply lookup_replicate in Hslot as [-> _].
    destruct (replicate 6 Dead !! Z.to_nat c) as [cell|] eqn:Hcell; [|discriminate].
    apply lookup_replicate in Hcell as [-> _]. discriminate.
Defined.

(** X8.  On a grid without holes, [calculateNextGeneration] throws
    exactly when row 0 is a non-empty array and some row slot holds
    [undefined] (or [null]) in place of an array.  When it returns and
    row 0 is a non-empty array, the result has the rows of the input, each
    of the length it has in the input, also when the input is ragged. *)
Theorem calculateNextGeneration_throws_iff (g : Grid) :
  (calculateNextGeneration g = None
   <-> default 0%nat (firstRowLength g) <> 0%nat /\ exists r : nat, g !! r = Some None)
  /\ (forall g', calculateNextGeneration g = Some g' ->
        default 0%nat (firstRowLength g) <> 0%nat ->
        length g' = length g
        /\ forall (r : nat) (cells : Row), g !! r = Some (Some cells) ->
             exists cells' : Row, g' !! r = Some (Some cells')
               /\ length cells' = length cells).
Proof.
  split.
  - unfold calculateNextGeneration. split.
    + destruct (decide _) as [|Hfull]; [done|]. intros Hnone.
      split; [tauto|].
      apply mapM_None, Exists_exists in Hnone as (x & Hx & Hid).
      apply list_elem_of_lookup in Hx as [i Hi].
      rewrite list_lookup_imap in Hi. exists i.
      destruct (g !! i) as [[cells|]|]; try done.
      simpl in Hi, Hid. congruence.
    + intros [Hcols [r Hr]].
      rewrite decide_False.
      * apply mapM_None, Exists_exists. exists None. split; [|done].
        apply list_elem_of_lookup. exists r. by rewrite list_lookup_imap, Hr.
      * intros [Hlen|Hzero]; [|done].
        apply lookup_lt_Some in Hr. lia.
  - intros g' Hnext Hcols.
    assert (length g <> 0%nat) as Hrows.
    { intros Hlen. destruct g; [|done]. by apply Hcols. }
    unfold calculateNextGeneration in Hnext.
    rewrite decide_False in Hnext by tauto.
    apply mapM_Some, Forall2_same_length_lookup in Hnext as [Hlen Hall].
    rewrite length_imap in Hlen. split; [done|].
    intros r cells Hr.
    destruct (lookup_lt_is_Some_2 g' r) as [slot' Hslot'].
    { rewrite <- Hlen. by apply lookup_lt_Some in Hr. }
    specialize (Hall r _ slot' ltac:(by rewrite list_lookup_imap, Hr) Hslot').
    simpl in Hall. injection Hall as <-.
    eexists. split; [done|]. by rewrite length_imap.
Qed.

(** ** More on the session *)

(** X9.  In every session that the page can reach: the status is
    [running] or [paused], never [stopped]; while [running] exactly one
    timer is registered, the one [timerId] names, and its delay is the
    current [simulationInterval]; while [paused] no timer is registered and
    [timerId] is [null]; the grid has the 50 rows of 70 cells of the
    configuration; and no listener throws. *)
Theorem reachable_session (below : nat -> bool) (w : World) :
  reachable below w ->
  status (gameState w) <> stopped
  /\ (status (gameState w) = running ->
        exists id, timerId (gameState w) = Some id
          /\ intervals w = [(id, simulationInterval (gameState w))])
  /\ (status (gameState w) = paused ->
        timerId (gameState w) = None /\ intervals w = [])
  /\ numRows (gameState w) = 50%nat /\ numCols (gameState w) = 70%nat
  /\ length (grid (gameState w)) = 50%nat
  /\ rectangular 70 (grid (gameState w))
  /\ (forall e, is_Some (handle below e w)).
Proof.
  intros Hreach.
  destruct (reachable_invariant below w Hreach) as (Hc & Hs & Hnr & Hnc & Hlen & Hrect).
  unfold timersConsistent in Hc.
  split; [done|]. split; [intros Hrun; by rewrite Hrun in Hc|].
  split; [intros Hp; by rewrite Hp in Hc|].
  split; [done|]. split; [done|]. split; [by rewrite Hlen|].
  split; [simpl in Hnc; by rewrite <- Hnc|].
  intros e. by apply reachable_never_throws.
Qed.

Lemma reachable_session_witness :
  status (gameState (dispatch (fun _ => true) (initialWorld (fun _ => true)) ClickStart))
  <> stopped.
Proof.
  apply (reachable_session (fun _ => true)).
  apply reachable_dispatch, reachable_initial.
Defined.

Lemma stopSimulation_not_running_after (w : World) :
  status (gameState (stopSimulation w)) <> running.
Proof.
  destruct (decide (status (gameState w) = running)) as [Hs|Hs].
  - by rewrite stopSimulation_status.
  - by rewrite stopSimulation_not_running.
Qed.

(** X10.  A second start, or a second stop, changes nothing: starting a
    session twice is starting it once and stopping it twice is stopping it
    once, whatever the session. *)
Theorem start_stop_idempotent (w : World) :
  startSimulation (startSimulation w) = startSimulation w
  /\ stopSimulation (stopSimulation w) = stopSimulation w.
Proof.
  split.
  - apply startSimulation_running, startSimulation_status.
  - apply stopSimulation_not_running, stopSimulation_not_running_after.
Qed.

(** X11.  Starting a session that is not running, with no timer
    registered, registers one timer: it has the identifier that
    [setInterval] returns, which [timerId] keeps, and the current
    [simulationInterval] as delay.  Stopping the session next removes the
    timer and leaves the session paused, with the grid, the generation
    counter and the interval of before the start. *)
Theorem start_then_stop (w : World) :
  timersConsistent w -> status (gameState w) <> running ->
  let started := startSimulation w in
  let stopped_again := stopSimulation started in
  status (gameState started) = running
  /\ timerId (gameState started) = Some (nextTimerId w)
  /\ intervals started = [(nextTimerId w, simulationInterval (gameState w))]
  /\ nextTimerId started = S (nextTimerId w)
  /\ sameBoard w started
  /\ status (gameState stopped_again) = paused
  /\ timerId (gameState stopped_again) = None
  /\ intervals stopped_again = []
  /\ sameBoard w stopped_again.
Proof.
  intros Hc Hs started stopped_again.
  assert (timerId (gameState w) = None /\ intervals w = []) as [Ht Hi].
  { unfold timersConsistent in Hc. destruct (status (gameState w)); done. }
  assert (status (gameState started) = running
          /\ timerId (gameState started) = Some (nextTimerId w)
          /\ intervals started = [(nextTimerId w, simulationInterval (gameState w))]
          /\ nextTimerId started = S (nextTimerId w)
          /\ sameBoard w started) as (H1 & H2 & H3 & H4 & H5).
  { subst started. unfold startSimulation, sameBoard.
    rewrite decide_False by done. simpl. rewrite Ht. simpl. rewrite Hi. done. }
  do 5 (split; [done|]).
  subst stopped_again.
  destruct (stopSimulation_running started _ _ H1 H2 H3) as (Hp & Ht' & Hi' & _ & Hsame).
  do 3 (split; [done|]).
  destruct H5 as (? & ? & ? & ? & ? & ?). destruct Hsame as (? & ? & ? & ? & ? & ?).
  unfold sameBoard. repeat split; congruence.
Qed.

Lemma start_then_stop_witness :
  intervals (startSimulation pausedWorld) = [(4%nat, 200)]
  /\ intervals (stopSimulation (startSimulation pausedWorld)) = [].
Proof.
  destruct (start_then_stop pausedWorld) as (_ & _ & H3 & _ & _ & _ & _ & H8 & _).
  - unfold timersConsistent. simpl. split; reflexivity.
  - discriminate.
  - split; [exact H3|exact H8].
Defined.

(** X12.  A change of speed while the session is running keeps it running
    with the same grid and generation counter, and replaces the timer: the
    only timer registered afterwards is a new one whose delay is the new
    interval.  While the session is not running only the stored interval
    changes. *)
Theorem speed_change_restarts_timer (interval : Z) (w : World) :
  timersConsistent w ->
  let w' := handleSpeedChange interval w in
  (status (gameState w) = running ->
     status (gameState w') = running
     /\ grid (gameState w') = grid (gameState w)
     /\ generation (gameState w') = generation (gameState w)
     /\ timerId (gameState w') = Some (nextTimerId w)
     /\ intervals w' = [(nextTimerId w, interval)])
  /\ (status (gameState w) <> running ->
        w' = withGameState w (setSimulationInterval interval (gameState w))).
Proof.
  intros Hc w'. split.
  - intros Hrun. subst w'. unfold handleSpeedChange.
    set (w1 := withGameState w (setSimulationInterval interval (gameState w))).
    simpl. rewrite decide_True by done.
    unfold timersConsistent in Hc. rewrite Hrun in Hc. destruct Hc as (id & Hid & Hint).
    destruct (stopSimulation_running w1 id _ Hrun Hid Hint)
      as (Hp & Ht & Hi & Hn & Hg & Hgen & _ & _ & Hsi & _).
    set (w2 := stopSimulation w1) in *.
    unfold startSimulation. rewrite decide_False by (by rewrite Hp).
    simpl. rewrite Ht. simpl. rewrite Hi, Hn, Hsi, Hg, Hgen. done.
  - intros Hs. subst w'. unfold handleSpeedChange. simpl.
    by rewrite decide_False.
Qed.

Lemma speed_change_restarts_timer_witness :
  intervals (handleSpeedChange 50 runningWorld) = [(4%nat, 50)].
Proof.
  destruct (speed_change_restarts_timer 50 runningWorld) as [Hrun _].
  - unfold timersConsistent. simpl. exists 3%nat. split; reflexivity.
  - destruct (Hrun eq_refl) as (_ & _ & _ & _ & Hi). exact Hi.
Defined.

(** X13.  A point edit reaches the grid only while the session is paused:
    with any other status [handleCellToggle] changes nothing.  While
    paused, an edit outside the bounds leaves the grid as it is and adds
    one warning to the console.  In no case does it change the status, the
    generation counter or the timers. *)
Theorem handleCellToggle_guarded (row col : Z) (explicitState : option CellState)
    (w : World) :
  let w' := handleCellToggle row col explicitState w in
  (status (gameState w) <> paused -> w' = w)
  /\ (status (gameState w) = paused -> ~ inBounds (grid (gameState w)) row col ->
        grid (gameState w') = grid (gameState w)
        /\ exists m, consoleLog w' = consoleLog w ++ [m] /\ level m = LevelWarn)
  /\ (status (gameState w) = paused -> inBounds (grid (gameState w)) row col ->
        grid (gameState w') = value (setCellState (grid (gameState w)) row col explicitState)
        /\ consoleLog w' = consoleLog w)
  /\ status (gameState w') = status (gameState w)
  /\ generation (gameState w') = generation (gameState w)
  /\ timerId (gameState w') = timerId (gameState w)
  /\ intervals w' = intervals w.
Proof.
  intros w'. subst w'. unfold handleCellToggle.
  destruct (decide (status (gameState w) = paused)) as [Hp|Hp].
  - split; [done|]. split; [|split; [|done]].
    + intros _ Hout. simpl. rewrite setCellState_outside by done. simpl.
      split; [done|]. by eexists.
    + intros _ Hin. simpl. rewrite setCellState_inside by done. simpl.
      split; [done|]. apply app_nil_r.
  - done.
Qed.

(** ** The timer *)

Lemma onTimer_registered (w : World) (id : nat) :
  id ∈ (intervals w).*1 -> onTimer id w = stepGeneration w.
Proof. intros Hin. unfold onTimer. by rewrite decide_True. Qed.

Lemma onTimer_unregistered (w : World) (id : nat) :
  id ∉ (intervals w).*1 -> onTimer id w = Some w.
Proof. intros Hin. unfold onTimer. by rewrite decide_False. Qed.

(** X14.  In a session that the page can reach, the expiry of a timer
    advances the simulation only while the session is running and only for
    the timer that [timerId] names: then it replaces the grid by its next
    generation and adds 1 to the generation counter.  A timer that was
    cleared (the session was stopped, or the speed changed) changes
    nothing when its callback is due. *)
Theorem timer_fires_only_while_running (below : nat -> bool) (w : World) (id : nat) :
  reachable below w ->
  let w' := dispatch below w (TimerFires id) in
  (status (gameState w) <> running -> w' = w)
  /\ (timerId (gameState w) <> Some id -> w' = w)
  /\ (status (gameState w) = running -> timerId (gameState w) = Some id ->
        calculateNextGeneration (grid (gameState w)) = Some (grid (gameState w'))
        /\ generation (gameState w') = S (generation (gameState w))
        /\ status (gameState w') = running
        /\ timerId (gameState w') = Some id
        /\ intervals w' = intervals w).
Proof.
  intros Hreach w'. subst w'. unfold dispatch. simpl.
  destruct (reachable_invariant below w Hreach) as (Hc & Hs & _ & _ & _ & Hrect).
  unfold timersConsistent in Hc.
  split; [|split].
  - intros Hnot. rewrite onTimer_unregistered; [done|].
    assert (intervals w = []) as ->; [|apply not_elem_of_nil].
    destruct (status (gameState w)); try done; by destruct Hc.
  - intros Hother. rewrite onTimer_unregistered; [done|].
    destruct (status (gameState w)).
    + destruct Hc as (id' & Hid & ->). simpl.
      intros Hin. apply list_elem_of_singleton in Hin as ->. done.
    + destruct Hc as [_ ->]. apply not_elem_of_nil.
    + done.
  - intros Hrun Hid. rewrite Hrun in Hc. destruct Hc as (id' & Hid' & Hint).
    rewrite onTimer_registered.
    + destruct (stepGeneration_wellTyped w (rectangular_wellTyped _ _ Hrect))
        as (g' & Hnext & _ & ->).
      simpl. done.
    + rewrite Hint. simpl. rewrite Hid in Hid'. injection Hid' as <-.
      apply list_elem_of_singleton. done.
Qed.

Lemma timer_fires_only_while_running_witness :
  dispatch (fun _ => false)
    (dispatch (fun _ => false) (initialWorld (fun _ => false)) ClickStop)
    (TimerFires 0)
  = dispatch (fun _ => false) (initialWorld (fun _ => false)) ClickStop.
Proof.
  destruct (timer_fires_only_while_running (fun _ => false)
              (dispatch (fun _ => false) (initialWorld (fun _ => false)) ClickStop) 0)
    as (Hnot & _ & _).
  - apply reachable_dispatch, reachable_initial.
  - apply Hnot. discriminate.
Defined.

Lemma run_cons (below : nat -> bool) (e : Event) (es : list Event) (w : World) :
  run below (e :: es) w = run below es (dispatch below w e).
Proof. done. Qed.

Lemma generations_first (k : nat) (g : Grid) :
  generations (S k) g = calculateNextGeneration g ≫= generations k.
Proof.
  unfold generations.
  assert (forall o : option Grid,
            Nat.iter k (fun o => o ≫= calculateNextGeneration) (o ≫= calculateNextGeneration)
            = Nat.iter k (fun o => o ≫= calculateNextGeneration) o ≫= calculateNextGeneration)
    as Hswap.
  { intros o. induction k as [|k IH]; [done|]. simpl. by rewrite IH. }
  simpl. rewrite <- Hswap. simpl.
  destruct (calculateNextGeneration g) as [g1|]; [done|]. simpl.
  clear Hswap. induction k as [|k IH]; [done|]. simpl. by rewrite IH.
Qed.

(** X15.  In a running session that the page can reach, [k] expiries of
    its timer in a row add [k] to the generation counter and replace the
    grid by the result of [k] calls of [calculateNextGeneration]; the
    session is still running with the same timer. *)
Theorem timer_ticks_accumulate (below : nat -> bool) (k : nat) :
  forall (w : World) (id : nat),
  reachable below w ->
  status (gameState w) = running -> timerId (gameState w) = Some id ->
  let w' := run below (replicate k (TimerFires id)) w in
  generation (gameState w') = (generation (gameState w) + k)%nat
  /\ generations k (grid (gameState w)) = Some (grid (gameState w'))
  /\ status (gameState w') = running
  /\ timerId (gameState w') = Some id.
Proof.
  induction k as [|k IH]; intros w id Hreach Hrun Hid w'.
  - subst w'. simpl. split; [lia|done].
  - subst w'.
    change (replicate (S k) (TimerFires id))
      with (TimerFires id :: replicate k (TimerFires id)).
    rewrite run_cons.
    set (w1 := dispatch below w (TimerFires id)).
    assert (reachable below w1) as Hreach1 by by apply reachable_dispatch.
    assert (calculateNextGeneration (grid (gameState w)) = Some (grid (gameState w1))
            /\ generation (gameState w1) = S (generation (gameState w))
            /\ status (gameState w1) = running
            /\ timerId (gameState w1) = Some id) as (Hnext & Hgen & Hrun1 & Hid1).
    { destruct (reachable_invariant below w Hreach) as (Hc & _ & _ & _ & _ & Hrect).
      unfold timersConsistent in Hc. rewrite Hrun in Hc.
      destruct Hc as (id' & Hid' & Hint).
      rewrite Hid in Hid'. injection Hid' as <-.
      subst w1. unfold dispatch. simpl.
      rewrite onTimer_registered
        by (rewrite Hint; simpl; by apply list_elem_of_singleton).
      destruct (stepGeneration_wellTyped w (rectangular_wellTyped _ _ Hrect))
        as (g' & Hnext & _ & ->).
      simpl. done. }
    destruct (IH w1 id Hreach1 Hrun1 Hid1) as (Hgen' & Hgens & Hrun' & Hid').
    split; [rewrite Hgen', Hgen; lia|].
    split; [|done].
    rewrite generations_first, Hnext. simpl. done.
Qed.

Lemma timer_ticks_accumulate_witness :
  let w := dispatch (fun _ => false) (initialWorld (fun _ => false)) ClickStart in
  generation (gameState (run (fun _ => false) (replicate 3 (TimerFires 0)) w))
  = (generation (gameState w) + 3)%nat.
Proof.
  apply (timer_ticks_accumulate (fun _ => false) 3
           (dispatch (fun _ => false) (initialWorld (fun _ => false)) ClickStart) 0).
  - apply reachable_dispatch, reachable_initial.
  - reflexivity.
  - reflexivity.
Defined.

(** ** Drawing on the canvas *)

(** An explicit edit of a paused session on a rectangular grid, inside
    the bounds. *)
Lemma handleCellToggle_paints (n : nat) (w : World) (row col : Z) (m : CellState) :
  status (gameState w) = paused ->
  rectangular n (grid (gameState w)) ->
  0 <= row < Z.of_nat (length (grid (gameState w))) -> 0 <= col < Z.of_nat n ->
  let w' := handleCellToggle row col (Some m) w in
  status (gameState w') = paused
  /\ drawMode (gameState w') = drawMode (gameState w)
  /\ rectangular n (grid (gameState w'))
  /\ length (grid (gameState w')) = length (grid (gameState w))
  /\ forall r c : Z,
       cellAt (grid (gameState w')) r c
       = if decide ((r, c) = (row, col)) then Some m else cellAt (grid (gameState w)) r c.
Proof.
  intros Hp Hrect Hr Hc w'. subst w'. unfold handleCellToggle.
  rewrite decide_True by done. simpl.
  destruct (inBounds_rectangular n _ row col Hrect Hr Hc) as [He Hin].
  split; [done|]. split; [done|].
  split; [rewrite <- He; by apply setCellState_rectangular|].
  split; [apply setCellState_length|].
  intros r c. rewrite (setCellState_cells n) by done.
  destruct (decide (r = row /\ c = col)) as [[-> ->]|Hne].
  - rewrite decide_True by done.
    rewrite <- (Z2Nat.id row), <- (Z2Nat.id col) by lia.
    rewrite (rectangular_cell n) by (done || lia). done.
  - rewrite decide_False; [done|]. intros [= -> ->]. by apply Hne.
Qed.

(** X16.  A [mousedown] on a cell of a paused session, on a rectangular
    grid: the cell is toggled, the draw mode of the gesture is the new
    state of that cell, every other cell is as before, and the mouse
    counts as down.  With any other status the listener does nothing at
    all. *)
Theorem mousedown_toggles_first_cell (n : nat) (s : InputState) (row col : Z) :
  rectangular n (grid (gameState (world s))) ->
  0 <= row < Z.of_nat (length (grid (gameState (world s)))) -> 0 <= col < Z.of_nat n ->
  let s' := onMouseDown (Some (row, col)) s in
  (status (gameState (world s)) <> paused -> s' = s)
  /\ (status (gameState (world s)) = paused ->
      exists cell,
        cellAt (grid (gameState (world s))) row col = Some cell
        /\ drawMode (gameState (world s')) = toggle cell
        /\ cellAt (grid (gameState (world s'))) row col = Some (toggle cell)
        /\ (forall r c : Z, (r, c) <> (row, col) ->
              cellAt (grid (gameState (world s'))) r c
              = cellAt (grid (gameState (world s))) r c)
        /\ isMouseDown s' = true
        /\ status (gameState (world s')) = paused).
Proof.
  intros Hrect Hr Hc s'. subst s'. unfold onMouseDown. split.
  - intros Hs. by rewrite decide_True.
  - intros Hp. rewrite decide_False by (intros H; by apply H).
    assert (exists cell, cellAt (grid (gameState (world s))) row col = Some cell)
      as [cell Hcell].
    { exists (prior (grid (gameState (world s))) (Z.to_nat row) (Z.to_nat col)).
      rewrite <- (rectangular_cell n) by (done || lia).
      by rewrite !Z2Nat.id by lia. }
    exists cell. split; [done|].
    set (mode := if decide (cellAt (grid (gameState (world s))) row col = Some Alive)
                 then Dead else Alive).
    assert (mode = toggle cell) as Hmode.
    { subst mode. rewrite Hcell. unfold toggle. by destruct cell. }
    set (w1 := withGameState (world s) (setDrawMode mode (gameState (world s)))).
    destruct (handleCellToggle_paints n w1 row col mode Hp Hrect Hr Hc)
      as (Hp' & Hd' & _ & _ & Hcells).
    cbn [world isMouseDown].
    change (drawMode (gameState w1)) with mode.
    split; [by rewrite Hd'|].
    split; [rewrite Hcells, decide_True by done; by rewrite Hmode|].
    split; [|done].
    intros r c Hne. by rewrite Hcells, decide_False.
Qed.

Lemma mousedown_toggles_first_cell_witness :
  drawMode (gameState (world (onMouseDown (Some (0, 0)) (mkInputState pausedWorld false))))
  = Dead.
Proof.
  destruct (mousedown_toggles_first_cell 2 (mkInputState pausedWorld false) 0 0)
    as [_ Hp].
  - repeat constructor; eexists; split; reflexivity.
  - simpl. lia.
  - lia.
  - destruct (Hp eq_refl) as (cell & Hcell & Hmode & _).
    injection Hcell as <-. exact Hmode.
Defined.

Lemma onMouseMove_paints (n : nat) (s : InputState) (row col : Z) :
  isMouseDown s = true -> status (gameState (world s)) = paused ->
  rectangular n (grid (gameState (world s))) ->
  0 <= row < Z.of_nat (length (grid (gameState (world s)))) -> 0 <= col < Z.of_nat n ->
  let s' := onMouseMove (Some (row, col)) s in
  isMouseDown s' = true
  /\ status (gameState (world s')) = paused
  /\ drawMode (gameState (world s')) = drawMode (gameState (world s))
  /\ rectangular n (grid (gameState (world s')))
  /\ length (grid (gameState (world s'))) = length (grid (gameState (world s)))
  /\ forall r c : Z,
       cellAt (grid (gameState (world s'))) r c
       = if decide ((r, c) = (row, col)) then Some (drawMode (gameState (world s)))
         else cellAt (grid (gameState (world s))) r c.
Proof.
  intros Hdown Hp Hrect Hr Hc s'. subst s'. unfold onMouseMove.
  rewrite Hdown, bool_decide_eq_true_2 by done. simpl.
  destruct (decide _) as [Hdiff|Hsame].
  - destruct (handleCellToggle_paints n (world s) row col
                (drawMode (gameState (world s))) Hp Hrect Hr Hc)
      as (Hp' & Hd' & Hrect' & Hlen' & Hcells).
    simpl. done.
  - do 5 (split; [done|]). intros r c.
    destruct (decide ((r, c) = (row, col))) as [[= -> ->]|Hne]; [|done].
    by destruct (decide (cellAt (grid (gameState (world s))) row col
                         = Some (drawMode (gameState (world s))))).
Qed.

Lemma drag_cons (cell : Z * Z) (cells : list (Z * Z)) (s : InputState) :
  drag (cell :: cells) s = drag cells (onMouseMove (Some cell) s).
Proof. done. Qed.

(** X17.  While the mouse is down on a paused session with a rectangular
    grid, moving over cells of the grid sets each of them to the draw mode
    of the gesture and leaves every other cell as it was; the draw mode
    does not change during the gesture.  While the mouse is up the same
    moves change nothing. *)
Theorem drag_paints_draw_mode (n : nat) (cells : list (Z * Z)) :
  forall s : InputState,
  status (gameState (world s)) = paused ->
  rectangular n (grid (gameState (world s))) ->
  Forall (fun cell => 0 <= cell.1 < Z.of_nat (length (grid (gameState (world s))))
                      /\ 0 <= cell.2 < Z.of_nat n) cells ->
  (isMouseDown s = false -> drag cells s = s)
  /\ (isMouseDown s = true ->
      drawMode (gameState (world (drag cells s))) = drawMode (gameState (world s))
      /\ forall r c : Z,
           cellAt (grid (gameState (world (drag cells s)))) r c
           = if decide ((r, c) ∈ cells) then Some (drawMode (gameState (world s)))
             else cellAt (grid (gameState (world s))) r c).
Proof.
  induction cells as [|[row col] cells IH]; intros s Hp Hrect Hcells.
  - split; [done|]. intros _. split; [done|]. intros r c.
    rewrite decide_False; [done|]. apply not_elem_of_nil.
  - apply Forall_cons in Hcells as [[Hr Hc] Hcells]. simpl in Hr, Hc.
    rewrite !drag_cons. split.
    + intros Hup.
      assert (onMouseMove (Some (row, col)) s = s) as ->.
      { unfold onMouseMove. by rewrite Hup. }
      by apply IH.
    + intros Hdown.
      destruct (onMouseMove_paints n s row col Hdown Hp Hrect Hr Hc)
        as (Hdown1 & Hp1 & Hd1 & Hrect1 & Hlen1 & Hcells1).
      set (s1 := onMouseMove (Some (row, col)) s) in *.
      destruct (IH s1 Hp1 Hrect1) as [_ Hrest]; [by rewrite Hlen1|].
      destruct (Hrest Hdown1) as [Hd2 Hcells2].
      split; [by rewrite Hd2|].
      intros r c. rewrite Hcells2, Hcells1, Hd1.
      destruct (decide ((r, c) ∈ cells)) as [Hin|Hnin].
      * rewrite decide_True; [done|]. by right.
      * destruct (decide ((r, c) = (row, col))) as [->|Hne].
        -- rewrite decide_True; [done|]. by left.
        -- rewrite decide_False; [done|].
           intros Hin. apply elem_of_cons in Hin as [?|?]; done.
Qed.

Lemma drag_paints_draw_mode_witness :
  cellAt (grid (gameState (world (drag [(0, 1); (1, 0)] (mkInputState pausedWorld true)))))
         1 0
  = Some Alive.
Proof.
  destruct (drag_paints_draw_mode 2 [(0, 1); (1, 0)] (mkInputState pausedWorld true))
    as [_ Hdown].
  - reflexivity.
  - repeat constructor; eexists; split; reflexivity.
  - repeat constructor; simpl; lia.
  - destruct (Hdown eq_refl) as [_ Hcells]. apply (Hcells 1 0).
Defined.

(** ** Patterns loaded into the session *)

Lemma createEmptyGrid_dead (nr nc : nat) (r c : Z) :
  cellAt (createEmptyGrid nr nc) r c <> Some Alive.
Proof.
  unfold cellAt, createEmptyGrid.
  destruct ((r <? 0) || (c <? 0)); [done|].
  destruct (replicate nr _ !! Z.to_nat r) as [slot|] eqn:Hslot; [|done].
  apply lookup_replicate in Hslot as [-> _].
  destruct (replicate nc Dead !! Z.to_nat c) as [cell|] eqn:Hcell; [|done].
  apply lookup_replicate in Hcell as [-> _]. done.
Qed.

Lemma handleLoadPattern_grid (p : Pattern) (w : World) :
  grid (gameState (handleLoadPattern p w))
  = loadPattern (createEmptyGrid (numRows (gameState w)) (numCols (gameState w))) p
      (centredStart (numRows (gameState w)) (height p))
      (centredStart (numCols (gameState w)) (width p)).
Proof.
  destruct (stopSimulation_sameBoard w) as (_ & _ & Hnr & Hnc & _).
  unfold handleLoadPattern. simpl. by rewrite Hnr, Hnc.
Qed.

(** The live cells of a pattern stamped on an empty grid. *)
Lemma loadPattern_on_empty (nr nc : nat) (p : Pattern) (sr sc r c : Z) :
  cellAt (loadPattern (createEmptyGrid nr nc) p sr sc) r c = Some Alive
  <-> (0 <= r < Z.of_nat nr /\ 0 <= c < Z.of_nat nc)
      /\ exists offset, offset ∈ data p /\ r = sr + offset.1 /\ c = sc + offset.2.
Proof.
  destruct (createEmptyGrid_shape nr nc) as [Hlen Hrect].
  set (g := createEmptyGrid nr nc) in *.
  destruct (decide ((0 <= r < Z.of_nat nr) /\ (0 <= c < Z.of_nat nc))) as [[Hr Hc]|Hout].
  - assert (expectedNumCols g = nc) as He.
    { apply rectangular_expected; [done|]. intros Hnil. rewrite Hnil in Hlen.
      simpl in Hlen. lia. }
    rewrite <- (Z2Nat.id r), <- (Z2Nat.id c) by lia.
    rewrite loadPattern_cell by lia. rewrite !Z2Nat.id by lia.
    rewrite Hlen, He. destruct (decide _) as [Hlive|Hnot].
    + apply elem_of_patternLiveCells in Hlive as (offset & Ho & _ & Hr' & Hc').
      split; [|done]. intros _. split; [done|]. by exists offset.
    + split.
      * intros [= Hprior]. exfalso.
        apply (createEmptyGrid_dead nr nc (Z.of_nat (Z.to_nat r)) (Z.of_nat (Z.to_nat c))).
        fold g. rewrite (rectangular_cell nc g) by (done || lia). by rewrite Hprior.
      * intros [_ (offset & Ho & -> & ->)]. exfalso. apply Hnot.
        apply elem_of_patternLiveCells. exists offset.
        split; [done|]. split; [by split|done].
  - split; [|tauto]. intros Halive. exfalso.
    destruct (decide (r < 0 \/ Z.of_nat (length (loadPattern g p sr sc)) <= r \/ c < 0))
      as [H|H].
    + by rewrite cellAt_outside in Halive.
    + rewrite loadPattern_length, Hlen in H.
      rewrite (rectangular_beyond (expectedNumCols g)) in Halive;
        [done|apply loadPattern_rectangular|].
      rewrite (rectangular_expected nc g); [lia|done|].
      intros Hnil. rewrite Hnil in Hlen. simpl in Hlen. lia.
Qed.

(** X18.  After the load-pattern command, whatever the grid held before, a
    cell is alive exactly when it lies on the board and is the target of an
    offset of the pattern, the pattern being placed with its declared box
    centred (rounding down): the command clears the board before it stamps
    the pattern. *)
Theorem handleLoadPattern_clean_stamp (p : Pattern) (w : World) (r c : Z) :
  cellAt (grid (gameState (handleLoadPattern p w))) r c = Some Alive
  <-> (0 <= r < Z.of_nat (numRows (gameState w))
       /\ 0 <= c < Z.of_nat (numCols (gameState w)))
      /\ exists offset, offset ∈ data p
           /\ r = (Z.of_nat (numRows (gameState w)) - height p) `div` 2 + offset.1
           /\ c = (Z.of_nat (numCols (gameState w)) - width p) `div` 2 + offset.2.
Proof. rewrite handleLoadPattern_grid. apply loadPattern_on_empty. Qed.

(** A pattern that fits the board is stamped whole. *)
Lemma handleLoadPattern_fits (p : Pattern) (w : World) :
  fits p (numRows (gameState w)) (numCols (gameState w)) ->
  forall r c : Z,
    cellAt (grid (gameState (handleLoadPattern p w))) r c = Some Alive
    <-> exists offset, offset ∈ data p
          /\ r = centredStart (numRows (gameState w)) (height p) + offset.1
          /\ c = centredStart (numCols (gameState w)) (width p) + offset.2.
Proof.
  intros (Hbox & Hh & Hw) r c.
  rewrite handleLoadPattern_grid, loadPattern_on_empty.
  split; [tauto|].
  intros (offset & Ho & -> & ->). split; [|by exists offset].
  rewrite Forall_forall in Hbox. destruct (Hbox offset Ho) as [Hr Hc].
  unfold centredStart. split.
  - pose proof (Z.div_pos (Z.of_nat (numRows (gameState w)) - height p) 2).
    pose proof (Z.div_le_upper_bound (Z.of_nat (numRows (gameState w)) - height p) 2
                  (Z.of_nat (numRows (gameState w)) - height p)).
    lia.
  - pose proof (Z.div_pos (Z.of_nat (numCols (gameState w)) - width p) 2).
    pose proof (Z.div_le_upper_bound (Z.of_nat (numCols (gameState w)) - width p) 2
                  (Z.of_nat (numCols (gameState w)) - width p)).
    lia.
Qed.

(** X19.  When every offset of the pattern lies in the box that the
    pattern declares and the box is not larger than the board, the
    load-pattern command drops no cell: the target of every offset is
    alive afterwards, and the live cells are exactly these targets. *)
Theorem handleLoadPattern_whole (p : Pattern) (w : World) :
  fits p (numRows (gameState w)) (numCols (gameState w)) ->
  let g' := grid (gameState (handleLoadPattern p w)) in
  let startRow := centredStart (numRows (gameState w)) (height p) in
  let startCol := centredStart (numCols (gameState w)) (width p) in
  (forall offset, offset ∈ data p ->
     cellAt g' (startRow + offset.1) (startCol + offset.2) = Some Alive)
  /\ (forall r c : Z,
        cellAt g' r c = Some Alive
        <-> exists offset, offset ∈ data p
              /\ r = startRow + offset.1 /\ c = startCol + offset.2).
Proof.
  intros Hfit g' startRow startCol.
  pose proof (handleLoadPattern_fits p w Hfit) as Hiff.
  split; [|done].
  intros offset Ho. apply Hiff. by exists offset.
Qed.

Lemma handleLoadPattern_whole_witness :
  cellAt (grid (gameState (handleLoadPattern gosperGliderGun (initialWorld (fun _ => true)))))
         (20 + 8) (17 + 13)
  = Some Alive.
Proof.
  destruct (handleLoadPattern_whole gosperGliderGun (initialWorld (fun _ => true)))
    as [Hall _].
  - unfold fits. simpl. repeat constructor; simpl; lia.
  - apply (Hall (8, 13)). simpl. repeat constructor.
Defined.

Lemma presets_fit (key : string) (p : Pattern) :
  PRESET_PATTERNS !! key = Some p -> fits p 50 70.
Proof.
  intros Hkey. apply elem_of_list_to_map_2 in Hkey.
  unfold presetEntries in Hkey.
  repeat (apply elem_of_cons in Hkey as [[= _ ->]|Hkey];
          [unfold fits; simpl; repeat constructor; simpl; lia|]).
  by apply elem_of_nil in Hkey.
Qed.

(** X20.  The listener of the template selector: the empty value of the
    first option changes nothing.  A key of the catalogue, in a session
    that the page can reach, leaves the session paused at generation 0 with
    the whole pattern on the board: the live cells are exactly the targets
    of its offsets, and none is dropped. *)
Theorem onTemplateChange_loads_preset (below : nat -> bool) (key : string) (w : World) :
  reachable below w ->
  onTemplateChange EmptyString w = w
  /\ (forall p, PRESET_PATTERNS !! key = Some p ->
        let w' := onTemplateChange key w in
        status (gameState w') = paused
        /\ generation (gameState w') = 0%nat
        /\ intervals w' = []
        /\ forall r c : Z,
             cellAt (grid (gameState w')) r c = Some Alive
             <-> exists offset, offset ∈ data p
                   /\ r = (50 - height p) `div` 2 + offset.1
                   /\ c = (70 - width p) `div` 2 + offset.2).
Proof.
  intros Hreach.
  destruct (reachable_invariant below w Hreach) as (Hc & _ & Hnr & Hnc & _ & _).
  split; [done|].
  - intros p Hkey w'.
    assert (w' = handleLoadPattern p w) as ->.
    { subst w'. unfold onTemplateChange. rewrite Hkey. by destruct key. }
    destruct (handleLoadPattern_replaces p w Hc) as (Hs & Hg & _ & _ & Hi & _).
    split; [done|]. split; [done|]. split; [done|].
    intros r c.
    assert (fits p (numRows (gameState w)) (numCols (gameState w))) as Hfit
      by (rewrite Hnr, Hnc; exact (presets_fit key p Hkey)).
    rewrite (handleLoadPattern_fits p w Hfit).
    unfold centredStart. by rewrite Hnr, Hnc.
Qed.

Lemma onTemplateChange_loads_preset_witness :
  generation (gameState (onTemplateChange "lwss" (initialWorld (fun _ => false)))) = 0%nat.
Proof.
  destruct (onTemplateChange_loads_preset (fun _ => false) "lwss"
              (initialWorld (fun _ => false))) as [_ Hkey].
  - apply reachable_initial.
  - destruct (Hkey lwss eq_refl) as (_ & Hgen & _). exact Hgen.
Defined.

(** ** The grids that the session starts from *)

(** X21.  [createEmptyGrid] and [createRandomGrid] return a grid of the
    requested number of rows, each an array of the requested number of
    cells; the grid of [createEmptyGrid] has no live cell. *)
Theorem created_grids_shape (below : nat -> bool) (drawn nr nc : nat) :
  length (createEmptyGrid nr nc) = nr
  /\ rectangular nc (createEmptyGrid nr nc)
  /\ (forall r c : Z, cellAt (createEmptyGrid nr nc) r c <> Some Alive)
  /\ (forall r c : Z, 0 <= r < Z.of_nat nr -> 0 <= c < Z.of_nat nc ->
        cellAt (createEmptyGrid nr nc) r c = Some Dead)
  /\ length (createRandomGrid below drawn nr nc) = nr
  /\ rectangular nc (createRandomGrid below drawn nr nc).
Proof.
  destruct (createEmptyGrid_shape nr nc) as [Hlen Hrect].
  destruct (createRandomGrid_shape below drawn nr nc) as [Hlen' Hrect'].
  split; [done|]. split; [done|]. split; [apply createEmptyGrid_dead|].
  split; [|done].
  intros r c Hr Hc.
  pose proof (createEmptyGrid_dead nr nc r c) as Hdead.
  rewrite <- (Z2Nat.id r), <- (Z2Nat.id c) in * by lia.
  rewrite (rectangular_cell nc) in * by (done || lia).
  destruct (prior _ _ _); [done|]. by destruct Hdead.
Qed.

(** ** The speed slider *)

(** X22.  The value that the speed slider is given for the interval of the
    session maps back, through the listener of the slider, to that
    interval; and of two slider values the larger gives the shorter
    interval. *)
Theorem slider_round_trip (w : World) (v1 v2 : Z) :
  simulationInterval (gameState (onSliderInput (sliderValueFor w) w))
  = simulationInterval (gameState w)
  /\ (v1 < v2 ->
      simulationInterval (gameState (onSliderInput v2 w))
      < simulationInterval (gameState (onSliderInput v1 w))).
Proof.
  unfold onSliderInput, sliderValueFor. rewrite !handleSpeedChange_interval.
  simpl. lia.
Qed.
